(** * tech99: price reduction, conversion arithmetic, history and sum_to_n

    A shallow embedding of the pure logic of the repository:
    - [byLatestPerCurrency] and the derived numbers of [SwapApp]
      (currency-swap form),
    - [getLatestPrices], [saveToHistory] and [convertCurrency] of
      [SimpleCurrencyConverter],
    - [sum_to_n_a], [sum_to_n_b], [sum_to_n_c].

    A JavaScript [number] is an IEEE 754 binary64 value; it is modelled by
    Rocq's primitive [float], whose operations are the same binary64
    operations (round to nearest, ties to even). *)

From Stdlib Require Import ZArith PArith Bool List String Lia Floats.
From Stdlib Require Import Permutation Sorted.
From Stdlib Require OrderedTypeEx.
Import ListNotations.

Set Warnings "-inexact-float".

(** ** JavaScript numbers *)

Module JsNumber.

Local Open Scope float_scope.

(** [isFinite(x)] on a number: neither NaN nor an infinity. *)
Definition isFinite (x : float) : bool := is_finite x.

(** [x > 0]; every comparison with NaN is false. *)
Definition gt0 (x : float) : bool := 0 <? x.

(** [x <= 0]. *)
Definition le0 (x : float) : bool := x <=? 0.

(** ToBoolean on a number: [0], [-0] and NaN are falsy. *)
Definition truthy (x : float) : bool := negb (is_nan x || is_zero x).

(** [x || 0] on a number. *)
Definition or_zero (x : float) : float := if truthy x then x else 0.

(** The mathematical value of a float that holds an integer, [None] for
    NaN, the infinities and floats with a fractional part. *)
Definition to_integer (x : float) : option Z :=
  match Prim2SF x with
  | S754_zero _ => Some 0%Z
  | S754_finite s m e =>
      let sign := fun z : Z => if s then Z.opp z else z in
      match e with
      | Z0 => Some (sign (Zpos m))
      | Zpos p => Some (sign (Z.shiftl (Zpos m) (Zpos p)))
      | Zneg p =>
          if Z.eqb (Z.land (Zpos m) (Z.ones (Zpos p))) 0
          then Some (sign (Z.shiftr (Zpos m) (Zpos p)))
          else None
      end
  | _ => None
  end.

(** The float nearest to an integer (exact up to [2^53]). *)
Definition of_integer (z : Z) : float :=
  SF2Prim (binary_normalize prec emax z 0 false).

(** *** Integers that a float holds exactly

    A positive integer [v] of [d] binary digits is stored with exponent
    [d - 53] and the 53-digit mantissa [v * 2^(53 - d)]; when [d > 53]
    this needs the low [d - 53] bits of [v] to be zero. *)

Abbreviation digits p := (Zpos (digits2_pos p)).

Definition int_exp (v : positive) : Z := digits v - prec.

Definition int_man (v : positive) : positive :=
  Z.to_pos (Z.shiftl (Zpos v) (- int_exp v)).

Definition representable (v : positive) : bool :=
  Z.eqb (Z.shiftl (Z.shiftl (Zpos v) (- int_exp v)) (int_exp v)) (Zpos v).

End JsNumber.

(** ** Insertion-ordered [Map<string, V>]

    A JavaScript [Map] iterates in the order its keys were first inserted;
    [set] on a key already present replaces the value in place. *)

Module JsMap.
Section WithValue.
Variable V : Type.

Definition t := list (string * V).

Definition empty : t := [].

Fixpoint get (k : string) (m : t) : option V :=
  match m with
  | [] => None
  | (k', v) :: m' => if String.eqb k k' then Some v else get k m'
  end.

Fixpoint set (k : string) (v : V) (m : t) : t :=
  match m with
  | [] => [(k, v)]
  | (k', v') :: m' =>
      if String.eqb k k' then (k, v) :: m' else (k', v') :: set k v m'
  end.

Definition keys (m : t) : list string := map fst m.

Definition values (m : t) : list V := map snd m.
End WithValue.

Arguments empty {V}.
Arguments get {V} k m.
Arguments set {V} k v m.
Arguments keys {V} m.
Arguments values {V} m.
End JsMap.

(** ** Array.prototype.sort with a comparator

    [sort] is stable and orders [a] before [b] when [cmp a b <= 0]; it is
    modelled by a stable insertion sort. *)

Module JsArray.
Section Sort.
Variable A : Type.
Variable cmp : A -> A -> Z.

Fixpoint insert (x : A) (l : list A) : list A :=
  match l with
  | [] => [x]
  | y :: l' => if (cmp x y <=? 0)%Z then x :: y :: l' else y :: insert x l'
  end.

Definition sort (l : list A) : list A := fold_right insert [] l.
End Sort.

Arguments insert {A} cmp x l.
Arguments sort {A} cmp l.

(** [arr.slice(0, n)] for [n >= 0]. *)
Definition slice0 {A} (n : nat) (l : list A) : list A := firstn n l.
End JsArray.

(** ** Time values

    [new Date(s).getTime()] is an integer number of milliseconds, or NaN for
    a string that is not a date: [option Z], with [None] for NaN. *)

Definition TimeValue := option Z.

(** [a > b] on time values: false as soon as one side is NaN. *)
Definition time_gt (a b : TimeValue) : bool :=
  match a, b with
  | Some x, Some y => (y <? x)%Z
  | _, _ => false
  end.

(** ** Currency swap form: [byLatestPerCurrency] and [SwapApp] *)

Module Swap.

Record PriceRow := {
  currency : string;
  date : string;
  price : float
}.

Record TokenMeta := {
  symbol : string;
  priceUSD : float;
  updatedAt : string
}.

Definition toTokenMeta (r : PriceRow) : TokenMeta :=
  {| symbol := currency r; priceUSD := price r; updatedAt := date r |}.

(** [typeof r.price === "number" && isFinite(r.price) && r.price > 0];
    the field is a [number] by its type. *)
Definition usablePrice (r : PriceRow) : bool :=
  JsNumber.isFinite (price r) && JsNumber.gt0 (price r).

Section Reduction.
(** [getTime s] is [new Date(s).getTime()]. *)
Variable getTime : string -> TimeValue.

(** The body of the [for ... of] loop. *)
Definition latestStep (m : JsMap.t PriceRow) (row : PriceRow)
  : JsMap.t PriceRow :=
  let prev := JsMap.get (currency row) m in
  if match prev with
     | None => true
     | Some p => time_gt (getTime (date row)) (getTime (date p))
     end
  then JsMap.set (currency row) row m
  else m.

Definition latestMap (rows : list PriceRow) : JsMap.t PriceRow :=
  fold_left latestStep rows JsMap.empty.

Definition byLatestPerCurrency (rows : list PriceRow) : list TokenMeta :=
  map toTokenMeta (filter usablePrice (JsMap.values (latestMap rows))).
End Reduction.

(** Every entry of the map is filed under the currency of its row. *)
Definition keyed (m : JsMap.t PriceRow) : Prop :=
  forall k v, In (k, v) m -> currency v = k.

(** The derived numbers of [SwapApp]. *)
Section Derived.
Local Open Scope float_scope.

Definition rate (fromToken toToken : option TokenMeta) : float :=
  match fromToken, toToken with
  | Some f, Some t => priceUSD f / priceUSD t
  | _, _ => 0
  end.

Definition amountOut (amountInNum rate : float) : float :=
  amountInNum * rate.

Definition platformFee (amountOut feeBps : float) : float :=
  amountOut * (feeBps / 10000).

Definition minReceived (amountOut slippage platformFee : float) : float :=
  amountOut * (1 - slippage / 100) - platformFee.

Record Quote := {
  q_rate : float;
  q_amountOut : float;
  q_platformFee : float;
  q_minReceived : float
}.

(** The chain of [useMemo] values, each computed from the previous. *)
Definition derive (fromToken toToken : option TokenMeta)
           (amountInNum feeBps slippage : float) : Quote :=
  let r := rate fromToken toToken in
  let out := amountOut amountInNum r in
  let fee := platformFee out feeBps in
  {| q_rate := r;
     q_amountOut := out;
     q_platformFee := fee;
     q_minReceived := minReceived out slippage fee |}.

(** [tokens.find((t) => t.symbol === sym) || null] *)
Definition findToken (tokens : list TokenMeta) (sym : string)
  : option TokenMeta :=
  find (fun t => String.eqb (symbol t) sym) tokens.

(** [Number(amountIn) || 0], where [parsed] is [Number(amountIn)]. *)
Definition amountInNum (parsed : float) : float := JsNumber.or_zero parsed.

(** Initial state of the form: [feeBps = 20], [slippage = 0.5]. *)
Definition defaultFeeBps : float := 20.
Definition defaultSlippage : float := 0.5.
End Derived.

End Swap.

(** ** Simple currency converter: [SimpleCurrencyConverter] *)

Module Converter.

(** [interface Token { currency; price; date }]: the same fields as
    [PriceRow], hence the same structural type. *)
Definition Token := Swap.PriceRow.

Definition currency : Token -> string := Swap.currency.
Definition price : Token -> float := Swap.price.
Definition date : Token -> string := Swap.date.

Record ConversionHistory := {
  from : string;
  to : string;
  amount : float;
  result : float;
  rate : float;
  timestamp : string
}.

(** The value that the text [JSON.stringify] writes for a number denotes:
    [null] (here [None]) for NaN and for the two infinities, [0] for [-0],
    and the number itself otherwise. *)
Definition jsonNumber (x : float) : option float :=
  if JsNumber.isFinite x
  then Some (if PrimFloat.is_zero x then 0%float else x)
  else None.

(** One entry of the stored item, as its JSON text denotes it. *)
Record StoredConversion := {
  stored_from : string;
  stored_to : string;
  stored_amount : option float;
  stored_result : option float;
  stored_rate : option float;
  stored_timestamp : string
}.

(** [JSON.stringify] on one history entry. *)
Definition stringifyConversion (c : ConversionHistory) : StoredConversion :=
  {| stored_from := from c;
     stored_to := to c;
     stored_amount := jsonNumber (amount c);
     stored_result := jsonNumber (result c);
     stored_rate := jsonNumber (rate c);
     stored_timestamp := timestamp c |}.

(** [JSON.stringify] on the history array. *)
Definition stringify (h : list ConversionHistory) : list StoredConversion :=
  map stringifyConversion h.

(** The component state that the conversion reads and writes;
    [sessionStorage] holds the item stored under ["conversionHistory"],
    as the value its JSON text denotes. *)
Record State := {
  st_tokens : list Token;
  st_fromCurrency : string;
  st_toCurrency : string;
  st_amount : string;
  st_result : option float;
  st_history : list ConversionHistory;
  st_sessionStorage : option (list StoredConversion)
}.

Section Reduction.
Variable getTime : string -> TimeValue.
(** [a.localeCompare(b)]: negative, zero or positive. *)
Variable localeCompare : string -> string -> Z.

(** The callback of [data.forEach]; two [Date] objects compare by their
    time values. *)
Definition currencyStep (currencyMap : JsMap.t Token) (token : Token)
  : JsMap.t Token :=
  let existing := JsMap.get (currency token) currencyMap in
  if match existing with
     | None => true
     | Some e => time_gt (getTime (date token)) (getTime (date e))
     end
  then JsMap.set (currency token) token currencyMap
  else currencyMap.

Definition currencyMapOf (data : list Token) : JsMap.t Token :=
  fold_left currencyStep data JsMap.empty.

Definition getLatestPrices (data : list Token) : list Token :=
  JsArray.sort
    (fun a b => localeCompare (currency a) (currency b))
    (filter (fun token => JsNumber.gt0 (price token))
            (JsMap.values (currencyMapOf data))).
End Reduction.

Definition setHistory (h : list ConversionHistory) (st : State) : State :=
  {| st_tokens := st_tokens st;
     st_fromCurrency := st_fromCurrency st;
     st_toCurrency := st_toCurrency st;
     st_amount := st_amount st;
     st_result := st_result st;
     st_history := h;
     st_sessionStorage := st_sessionStorage st |}.

(** [sessionStorage.setItem("conversionHistory", JSON.stringify(h))] *)
Definition setItem (h : list ConversionHistory) (st : State) : State :=
  {| st_tokens := st_tokens st;
     st_fromCurrency := st_fromCurrency st;
     st_toCurrency := st_toCurrency st;
     st_amount := st_amount st;
     st_result := st_result st;
     st_history := st_history st;
     st_sessionStorage := Some (stringify h) |}.

Definition setResult (r : float) (st : State) : State :=
  {| st_tokens := st_tokens st;
     st_fromCurrency := st_fromCurrency st;
     st_toCurrency := st_toCurrency st;
     st_amount := st_amount st;
     st_result := Some r;
     st_history := st_history st;
     st_sessionStorage := st_sessionStorage st |}.

(** [[conversion, ...history].slice(0, 10)] *)
Definition newHistory (conversion : ConversionHistory)
           (history : list ConversionHistory) : list ConversionHistory :=
  JsArray.slice0 10 (conversion :: history).

Definition saveToHistory (conversion : ConversionHistory) (st : State)
  : State :=
  let h := newHistory conversion (st_history st) in
  setItem h (setHistory h st).

Definition clearHistory (st : State) : State :=
  {| st_tokens := st_tokens st;
     st_fromCurrency := st_fromCurrency st;
     st_toCurrency := st_toCurrency st;
     st_amount := st_amount st;
     st_result := st_result st;
     st_history := [];
     st_sessionStorage := None |}.

(** ToBoolean on a string: only the empty string is falsy. *)
Definition nonEmpty (s : string) : bool := negb (String.eqb s "").

Section Convert.
Local Open Scope float_scope.
(** [parseFloat] of the text of the amount field. *)
Variable parseFloat : string -> float.

(** [now] is [new Date().toLocaleString()] at the time of the click. *)
Definition convertCurrency (now : string) (st : State) : State :=
  let amountNum := parseFloat (st_amount st) in
  if negb (JsNumber.truthy amountNum)
     || negb (nonEmpty (st_fromCurrency st))
     || negb (nonEmpty (st_toCurrency st))
  then st
  else
    let fromToken :=
      find (fun t => String.eqb (currency t) (st_fromCurrency st))
           (st_tokens st) in
    let toToken :=
      find (fun t => String.eqb (currency t) (st_toCurrency st))
           (st_tokens st) in
    match fromToken, toToken with
    | Some f, Some t =>
        let rate := price f / price t in
        let convertedAmount := amountNum * rate in
        let conversion :=
          {| from := st_fromCurrency st;
             to := st_toCurrency st;
             amount := amountNum;
             result := convertedAmount;
             rate := rate;
             timestamp := now |} in
        saveToHistory conversion (setResult convertedAmount st)
    | _, _ => st
    end.
End Convert.

End Converter.

(** ** Three ways to sum to n *)

Module SumToN.
Local Open Scope float_scope.

(** [[...Array(num).keys()]]: the indices [0 .. num-1]; [Array(num)]
    throws a RangeError ([None]) unless [num] is an integer in
    [0 .. 2^32 - 1]. *)
Definition Array_keys (num : float) : option (list float) :=
  match JsNumber.to_integer num with
  | Some n =>
      if ((0 <=? n) && (n <? 2 ^ 32))%Z
      then Some (map (fun k => JsNumber.of_integer (Z.of_nat k))
                     (seq 0 (Z.to_nat n)))
      else None
  | None => None
  end.

Definition sum_to_n_a (num : float) : option float :=
  match Array_keys num with
  | Some numList =>
      Some (fold_left (fun prev cur => prev + cur)
                      (map (fun num => num + 1) numList)
                      0)
  | None => None
  end.

(** The [for] loop of [sum_to_n_b], from the state [(i, sum)]; [None]
    when [fuel] iterations were not enough to leave the loop. *)
Fixpoint sum_to_n_b_loop (fuel : nat) (num i sum : float) : option float :=
  match fuel with
  | O => None
  | S fuel' =>
      if i <=? num
      then sum_to_n_b_loop fuel' num (i + 1) (sum + i)
      else Some sum
  end.

Definition sum_to_n_b (fuel : nat) (num : float) : option float :=
  sum_to_n_b_loop fuel num 1 0.

Definition sum_to_n_c (num : float) : float :=
  (num * (num + 1)) / 2.

(** The sum [0 + 1 + ... + k] as an integer. *)
Definition tri (k : Z) : Z := (k * (k + 1) / 2)%Z.

End SumToN.

(** ** Sample environment: the dates of the test scenarios and a
    code-unit string order. *)

Module Sample.
Local Open Scope string_scope.

Definition getTime (s : string) : TimeValue :=
  if String.eqb s "2024-01-01" then Some 1704067200000%Z
  else if String.eqb s "2024-01-02" then Some 1704153600000%Z
  else None.

Definition localeCompare (a b : string) : Z :=
  match String.compare a b with
  | Lt => (-1)%Z
  | Eq => 0%Z
  | Gt => 1%Z
  end.

Definition parseFloat (s : string) : float :=
  if String.eqb s "2" then 2%float else nan.

Definition eth : Swap.TokenMeta :=
  {| Swap.symbol := "ETH"; Swap.priceUSD := 3100;
     Swap.updatedAt := "2024-01-02" |}.

Definition usdc : Swap.TokenMeta :=
  {| Swap.symbol := "USDC"; Swap.priceUSD := 1;
     Swap.updatedAt := "2024-01-01" |}.
End Sample.

(** ** Objects used as tables of numbers

    [Record<string, number>] values are plain objects: a lookup finds an own
    property, else a property inherited from [Object.prototype] (a function
    or an object, which is NaN wherever a number is needed), else
    [undefined]. [inherited k] tells whether [Object.prototype] has a
    property named [k] other than the accessor [__proto__]. *)

Module JsObject.

Inductive Lookup :=
| Own (v : float)
| Inherited
| Missing.

(** Own enumerable properties, in insertion order. *)
Definition t := list (string * float).

Section WithPrototype.
Variable inherited : string -> bool.

(** [o[k]] *)
Definition get (o : t) (k : string) : Lookup :=
  match JsMap.get k o with
  | Some v => Own v
  | None =>
      if String.eqb k "__proto__" || inherited k then Inherited else Missing
  end.

(** [o[k] = v] with a number [v]: the inherited setter [__proto__] ignores
    a number; any other key becomes or stays an own property. *)
Definition set (o : t) (k : string) (v : float) : t :=
  match JsMap.get k o with
  | None => if String.eqb k "__proto__" then o else JsMap.set k v o
  | Some _ => JsMap.set k v o
  end.
End WithPrototype.

(** [l ?? d] read as a number: an inherited function or object is NaN in
    the comparisons and subtractions that use it. *)
Definition orNumber (d : float) (l : Lookup) : float :=
  match l with
  | Own v => v
  | Missing => d
  | Inherited => nan
  end.

End JsObject.

(** ** More of the JavaScript library *)

Module JsMath.
Local Open Scope float_scope.

(** [Math.max(a, b)]: NaN if either is NaN; [+0] is above [-0]. *)
Definition max (a b : float) : float :=
  if is_nan a || is_nan b then nan
  else if a <? b then b
  else if b <? a then a
  else if get_sign a then b else a.

(** How [sort] reads the number a comparator returns: its sign, NaN
    counting as [0]. *)
Definition comparatorSign (v : float) : Z :=
  if v <? 0 then (-1)%Z else if 0 <? v then 1%Z else 0%Z.

End JsMath.

(** ** The swap form: validation and submit *)

Module SwapForm.
Import Swap.
Local Open Scope float_scope.

Record Form := {
  tokens : list TokenMeta;
  loading : bool;
  error : option string;
  fromSymbol : string;
  toSymbol : string;
  amountIn : string;
  slippage : float;
  feeBps : float;
  balances : JsObject.t
}.

(** The mock wallet. *)
Definition DEFAULT_BALANCES : JsObject.t :=
  [ ("USDC"%string, 2500); ("USD"%string, 1000); ("ETH"%string, 0.75);
    ("ATOM"%string, 123.45); ("OSMO"%string, 200); ("SWTH"%string, 100000) ].

(** [setTokens(latest.sort((a, b) => a.symbol.localeCompare(b.symbol)))] *)
Definition loadTokens (getTime : string -> TimeValue)
           (localeCompare : string -> string -> Z)
           (raw : list PriceRow) : list TokenMeta :=
  JsArray.sort (fun a b => localeCompare (symbol a) (symbol b))
               (byLatestPerCurrency getTime raw).

Section WithBuiltins.
(** [Number(s)] on the text of the amount field. *)
Variable Number : string -> float.
Variable inherited : string -> bool.

Definition fromToken (f : Form) : option TokenMeta :=
  findToken (tokens f) (fromSymbol f).

Definition toToken (f : Form) : option TokenMeta :=
  findToken (tokens f) (toSymbol f).

Definition amountInNumOf (f : Form) : float :=
  amountInNum (Number (amountIn f)).

Definition quote (f : Form) : Quote :=
  derive (fromToken f) (toToken f) (amountInNumOf f) (feeBps f) (slippage f).

Definition sameToken (f : Form) : bool :=
  String.eqb (fromSymbol f) (toSymbol f).

Definition hasPrice (f : Form) : bool :=
  match fromToken f, toToken f with
  | Some _, Some _ => true
  | _, _ => false
  end.

(** [balances[fromSymbol] ?? 0] *)
Definition fromBal (f : Form) : float :=
  JsObject.orNumber 0 (JsObject.get inherited (balances f) (fromSymbol f)).

(** [amountInNum > fromBal + 1e-12] *)
Definition amountTooHigh (f : Form) : bool :=
  fromBal f + 1e-12 <? amountInNumOf f.

(** [!isFinite(amountInNum) || amountInNum <= 0] *)
Definition amountInvalid (f : Form) : bool :=
  negb (JsNumber.isFinite (amountInNumOf f)) || JsNumber.le0 (amountInNumOf f).

(** [!error]: [null] and the empty string are falsy. *)
Definition noError (f : Form) : bool :=
  match error f with
  | None => true
  | Some msg => String.eqb msg ""
  end.

Definition canSwap (f : Form) : bool :=
  negb (loading f) && noError f && hasPrice f && negb (sameToken f)
  && negb (amountInvalid f) && negb (amountTooHigh f)
  && JsNumber.gt0 (q_amountOut (quote f)).

Definition setBalances (b : JsObject.t) (f : Form) : Form :=
  {| tokens := tokens f; loading := loading f; error := error f;
     fromSymbol := fromSymbol f; toSymbol := toSymbol f;
     amountIn := amountIn f; slippage := slippage f; feeBps := feeBps f;
     balances := b |}.

Definition setAmountIn (a : string) (f : Form) : Form :=
  {| tokens := tokens f; loading := loading f; error := error f;
     fromSymbol := fromSymbol f; toSymbol := toSymbol f;
     amountIn := a; slippage := slippage f; feeBps := feeBps f;
     balances := balances f |}.

(** The balance update of [submit], from the balances [prev].  The sum
    [(next[toSymbol] ?? 0) + out] is a number when the target has a balance
    of its own or none at all.  When [toSymbol] names an inherited property,
    [+] concatenates the text of that function or object with [out], and the
    object then holds a string: it is no table of numbers any more, which is
    [None] here. *)
Definition nextBalances (f : Form) (prev : JsObject.t) : option JsObject.t :=
  let out := JsMath.max (q_minReceived (quote f)) 0 in
  let next1 :=
    JsObject.set prev (fromSymbol f)
      (JsObject.orNumber 0 (JsObject.get inherited prev (fromSymbol f))
       - amountInNumOf f) in
  match JsObject.get inherited next1 (toSymbol f) with
  | JsObject.Inherited => None
  | l => Some (JsObject.set next1 (toSymbol f) (JsObject.orNumber 0 l + out))
  end.

(** [submit], once its delay has passed with the form left as it was: the
    balances are updated and the amount field is emptied. *)
Definition submit (f : Form) : option Form :=
  if negb (canSwap f) then Some f
  else
    match nextBalances f (balances f) with
    | Some next => Some (setAmountIn "" (setBalances next f))
    | None => None
    end.
End WithBuiltins.

End SwapForm.

(** ** The converter: what follows a successful fetch *)

Module ConverterLoad.
Import Converter.

Definition setTokens (l : list Token) (st : State) : State :=
  {| st_tokens := l;
     st_fromCurrency := st_fromCurrency st;
     st_toCurrency := st_toCurrency st;
     st_amount := st_amount st;
     st_result := st_result st;
     st_history := st_history st;
     st_sessionStorage := st_sessionStorage st |}.

Definition setFromCurrency (c : string) (st : State) : State :=
  {| st_tokens := st_tokens st;
     st_fromCurrency := c;
     st_toCurrency := st_toCurrency st;
     st_amount := st_amount st;
     st_result := st_result st;
     st_history := st_history st;
     st_sessionStorage := st_sessionStorage st |}.

Definition setToCurrency (c : string) (st : State) : State :=
  {| st_tokens := st_tokens st;
     st_fromCurrency := st_fromCurrency st;
     st_toCurrency := c;
     st_amount := st_amount st;
     st_result := st_result st;
     st_history := st_history st;
     st_sessionStorage := st_sessionStorage st |}.

(** The body of [fetchTokens] after [response.json()] gave [data]. *)
Definition pricesLoaded (getTime : string -> TimeValue)
           (localeCompare : string -> string -> Z)
           (data : list Token) (st : State) : State :=
  let latestPrices := getLatestPrices getTime localeCompare data in
  let st1 := setTokens latestPrices st in
  match latestPrices with
  | [] => st1
  | t0 :: rest =>
      let second :=
        match rest with
        | t1 :: _ => if nonEmpty (currency t1) then currency t1 else currency t0
        | [] => currency t0
        end in
      setToCurrency second (setFromCurrency (currency t0) st1)
  end.

(** The [disabled] attribute of the Convert button. *)
Definition convertDisabled (st : State) : bool :=
  negb (nonEmpty (st_amount st))
  || negb (nonEmpty (st_fromCurrency st))
  || negb (nonEmpty (st_toCurrency st))
  || String.eqb (st_fromCurrency st) (st_toCurrency st).

End ConverterLoad.

(** ** The wallet page: priorities, filter and sort *)

Module Wallet.
Local Open Scope float_scope.

Definition PRIORITY : JsObject.t :=
  [ ("Osmosis"%string, 100); ("Ethereum"%string, 50);
    ("Arbitrum"%string, 30); ("Zilliqa"%string, 20); ("Neo"%string, 20) ].

Record WalletBalance := {
  currency : string;
  amount : float;
  blockchain : string
}.

Section WithPrototype.
Variable inherited : string -> bool.

(** [PRIORITY[blockchain] ?? -99], read as a number. *)
Definition getPriority (blockchain : string) : float :=
  JsObject.orNumber (-99) (JsObject.get inherited PRIORITY blockchain).

(** [balancePriority > -99 && balance.amount >= 0] *)
Definition shown (balance : WalletBalance) : bool :=
  (-99 <? getPriority (blockchain balance)) && (0 <=? amount balance).

(** [rightPriority - leftPriority] *)
Definition byPriority (lhs rhs : WalletBalance) : float :=
  getPriority (blockchain rhs) - getPriority (blockchain lhs).

Definition sortedBalances (balances : list WalletBalance)
  : list WalletBalance :=
  JsArray.sort (fun lhs rhs => JsMath.comparatorSign (byPriority lhs rhs))
               (filter shown balances).
End WithPrototype.

(** The five chains of [PRIORITY]. *)
Definition knownChain (b : string) : bool :=
  existsb (String.eqb b) (JsMap.keys PRIORITY).

End Wallet.

(** ** Order of first appearance *)

(** The distinct elements of a list of strings, each at the place of its
    first occurrence. *)
Definition firstSeen (l : list string) : list string :=
  fold_left (fun acc k => if existsb (String.eqb k) acc then acc else acc ++ [k])
            l [].

(** * Facts about binary64 arithmetic

    Proved from the specification of the primitive operations
    ([mul_spec], [add_spec], [div_spec], [leb_spec]) over [spec_float]. *)

Module JsNumberFacts.
Import JsNumber.
Local Open Scope Z_scope.

(** ** Binary digits *)

Lemma digits_bounds (p : positive) :
  2 ^ (digits p - 1) <= Zpos p < 2 ^ digits p.
Proof.
  induction p as [p IH | p IH |]; cbn [digits2_pos].
  - rewrite Pos2Z.inj_succ, (Pos2Z.inj_xI p).
    replace (Z.succ (digits p) - 1) with (Z.succ (digits p - 1)) by lia.
    rewrite !Z.pow_succ_r by lia. lia.
  - rewrite Pos2Z.inj_succ, (Pos2Z.inj_xO p).
    replace (Z.succ (digits p) - 1) with (Z.succ (digits p - 1)) by lia.
    rewrite !Z.pow_succ_r by lia. lia.
  - cbn. lia.
Qed.

Lemma digits_unique (p : positive) (d : Z) :
  2 ^ (d - 1) <= Zpos p < 2 ^ d -> digits p = d.
Proof.
  intros [Hlo Hhi]. pose proof (digits_bounds p) as [Blo Bhi].
  destruct (Z.lt_trichotomy (digits p) d) as [Hlt | [Heq | Hgt]]; [| exact Heq |].
  - assert (2 ^ digits p <= 2 ^ (d - 1)) by (apply Z.pow_le_mono_r; lia). lia.
  - assert (0 <= d).
    { destruct (Z.le_gt_cases 0 d); [assumption|].
      rewrite (Z.pow_neg_r 2 d) in Hhi by lia. lia. }
    assert (2 ^ d <= 2 ^ (digits p - 1)) by (apply Z.pow_le_mono_r; lia). lia.
Qed.

Lemma digits_shift (p q : positive) (k : Z) :
  0 <= k -> Zpos q = Zpos p * 2 ^ k -> digits q = digits p + k.
Proof.
  intros Hk Hq. apply digits_unique. rewrite Hq.
  pose proof (digits_bounds p) as [Blo Bhi].
  replace (digits p + k - 1) with (digits p - 1 + k) by lia.
  rewrite !Z.pow_add_r by lia.
  assert (0 < 2 ^ k) by (apply Z.pow_pos_nonneg; lia).
  split; nia.
Qed.

(** ** Right shifts that drop only zero bits *)

Lemma iter_pos_nat {A} (f : A -> A) (p : positive) (x : A) :
  iter_pos f p x = Nat.iter (Pos.to_nat p) f x.
Proof.
  revert x. induction p as [p IH | p IH |]; intros x; cbn [iter_pos].
  - rewrite !IH, Pos2Nat.inj_xI.
    replace (S (2 * Pos.to_nat p))%nat with (Pos.to_nat p + (Pos.to_nat p + 1))%nat by lia.
    rewrite !Nat.iter_add. reflexivity.
  - rewrite !IH, Pos2Nat.inj_xO.
    replace (2 * Pos.to_nat p)%nat with (Pos.to_nat p + Pos.to_nat p)%nat by lia.
    rewrite Nat.iter_add. reflexivity.
  - reflexivity.
Qed.

Lemma shr_1_even (m : positive) :
  shr_1 {| shr_m := Zpos m~0; shr_r := false; shr_s := false |}
  = {| shr_m := Zpos m; shr_r := false; shr_s := false |}.
Proof. reflexivity. Qed.

Lemma shr_iter_exact (n : nat) (m : positive) (M : Z) :
  M = Zpos m * 2 ^ Z.of_nat n ->
  Nat.iter n shr_1 {| shr_m := M; shr_r := false; shr_s := false |}
  = {| shr_m := Zpos m; shr_r := false; shr_s := false |}.
Proof.
  revert M. induction n as [| n IH]; intros M HM.
  - cbn in *. f_equal. lia.
  - rewrite Nat.iter_succ_r.
    assert (HM' : M = Zpos (xO (Z.to_pos (Zpos m * 2 ^ Z.of_nat n)))).
    { rewrite Pos2Z.inj_xO, Z2Pos.id.
      - rewrite HM, Nat2Z.inj_succ, Z.pow_succ_r by lia. lia.
      - assert (0 < 2 ^ Z.of_nat n) by (apply Z.pow_pos_nonneg; lia). nia. }
    rewrite HM', shr_1_even. apply IH.
    rewrite Z2Pos.id; [reflexivity|].
    assert (0 < 2 ^ Z.of_nat n) by (apply Z.pow_pos_nonneg; lia). nia.
Qed.

Lemma shr_exact (m : positive) (M e k : Z) :
  0 <= k -> M = Zpos m * 2 ^ k ->
  shr {| shr_m := M; shr_r := false; shr_s := false |} e k
  = ({| shr_m := Zpos m; shr_r := false; shr_s := false |}, e + k).
Proof.
  intros Hk HM. destruct k as [| p | p]; cbn [shr]; [| | lia].
  - rewrite Z.pow_0_r, Z.mul_1_r in HM. subst M. now rewrite Z.add_0_r.
  - rewrite iter_pos_nat. f_equal. apply shr_iter_exact.
    now rewrite positive_nat_Z.
Qed.

(** Rounding [m * 2^(e - E)] at exponent [E] gives back [(m, e)] when
    [(m, e)] is a valid mantissa and exponent: nothing is rounded off. *)
Lemma round_exact (s : bool) (m : positive) (M e E : Z) :
  bounded prec emax m e = true ->
  E <= e -> M = Zpos m * 2 ^ (e - E) ->
  binary_round_aux prec emax s M E loc_Exact = S754_finite s m e.
Proof.
  intros Hb HE HM.
  apply andb_prop in Hb as [Hc He].
  unfold canonical_mantissa in Hc. apply Z.eqb_eq in Hc.
  assert (HMpos : M = Zpos (Z.to_pos M)).
  { rewrite Z2Pos.id; [reflexivity|].
    assert (0 < 2 ^ (e - E)) by (apply Z.pow_pos_nonneg; lia). nia. }
  assert (Hd : Zdigits2 M = digits m + (e - E)).
  { rewrite HMpos. cbn [Zdigits2]. apply digits_shift; [lia|]. now rewrite <- HMpos. }
  unfold binary_round_aux, shr_fexp.
  rewrite Hd. replace (digits m + (e - E) + E) with (digits m + e) by lia.
  rewrite Hc. cbn [shr_record_of_loc].
  rewrite (@shr_exact m M E (e - E)) by (lia || assumption).
  cbn [shr_m loc_of_shr_record round_nearest_even Zdigits2].
  replace (E + (e - E)) with e by lia.
  rewrite Hc, Z.sub_diag. cbn [shr_record_of_loc shr shr_m].
  now rewrite He.
Qed.

Local Open Scope float_scope.

(** ** Multiplying by one, dividing a number by itself *)

Lemma Prim2SF_one : Prim2SF 1 = S754_finite false 4503599627370496 (-52).
Proof. reflexivity. Qed.

Lemma Prim2SF_zero : Prim2SF 0 = S754_zero false.
Proof. reflexivity. Qed.

Lemma mul_one_r (x : float) : x * 1 = x.
Proof.
  apply Prim2SF_inj. rewrite mul_spec, Prim2SF_one.
  pose proof (Prim2SF_valid x) as Hv.
  destruct (Prim2SF x) as [s | s | | s m e]; cbn [SF64mul SFmul].
  - now rewrite xorb_false_r.
  - now rewrite xorb_false_r.
  - reflexivity.
  - rewrite xorb_false_r. apply round_exact.
    + exact Hv.
    + lia.
    + replace (e - (e + -52))%Z with 52%Z by lia. rewrite Pos2Z.inj_mul. reflexivity.
Qed.

Lemma div_self (x : float) (s : bool) (m : positive) (e : Z) :
  Prim2SF x = S754_finite s m e -> x / x = 1.
Proof.
  intros Hx. apply Prim2SF_inj. rewrite div_spec, Hx, Prim2SF_one.
  cbn [SF64div SFdiv]. unfold SFdiv_core_binary.
  rewrite !Z.sub_diag.
  change (Z.min (fexp prec emax 0) 0) with (-53)%Z.
  change (0 - -53)%Z with 53%Z. cbv iota beta.
  assert (Hq : Z.div_eucl (Z.shiftl (Zpos m) 53) (Zpos m) = (9007199254740992%Z, 0%Z)).
  { rewrite Z.shiftl_mul_pow2 by lia.
    pose proof (Z.div_eucl_eq (Zpos m * 2 ^ 53) (Zpos m) ltac:(lia)) as Heq.
    pose proof (Z.mod_pos_bound (Zpos m * 2 ^ 53) (Zpos m) ltac:(lia)) as Hb.
    unfold Z.modulo in Hb.
    destruct (Z.div_eucl (Zpos m * 2 ^ 53) (Zpos m)) as [q r].
    change (2 ^ 53)%Z with 9007199254740992%Z in *.
    assert (q = 9007199254740992%Z) by nia. subst q.
    f_equal. lia. }
  rewrite Hq.
  assert (Hl : new_location (Zpos m) 0 = loc_Exact).
  { unfold new_location. now destruct (Z.even (Zpos m)). }
  rewrite Hl, xorb_nilpotent. reflexivity.
Qed.

Lemma Prim2SF_infinity : Prim2SF infinity = S754_infinity false.
Proof. reflexivity. Qed.

Lemma finite_pos_inv (x : float) :
  is_finite x = true -> (0 <? x) = true ->
  exists m e, Prim2SF x = S754_finite false m e.
Proof.
  unfold is_finite, is_nan, is_infinity.
  rewrite ltb_spec, !eqb_spec, abs_spec, Prim2SF_zero, Prim2SF_infinity.
  destruct (Prim2SF x) as [s | s | | s m e]; cbn; try discriminate.
  - now destruct s.
  - destruct s; [discriminate|]. intros _ _. now exists m, e.
Qed.

Local Open Scope Z_scope.

(** ** Integers held exactly *)

Lemma digits_le_53 (v : positive) : Zpos v < 2 ^ 53 -> digits v <= 53.
Proof.
  intros Hv. pose proof (digits_bounds v) as [Blo _].
  assert (H : 2 ^ (digits v - 1) < 2 ^ 53) by lia.
  apply Z.pow_lt_mono_r_iff in H; lia.
Qed.

Lemma int_exp_lower (v : positive) : -52 <= int_exp v.
Proof. unfold int_exp, prec. lia. Qed.

Lemma int_exp_small (v : positive) : Zpos v < 2 ^ 53 -> int_exp v <= 0.
Proof. intros H. apply digits_le_53 in H. unfold int_exp, prec. lia. Qed.

Lemma representable_small (v : positive) :
  Zpos v < 2 ^ 53 -> representable v = true.
Proof.
  intros H. apply int_exp_small in H. unfold representable.
  apply Z.eqb_eq. rewrite Z.shiftl_shiftl by lia.
  replace (- int_exp v + int_exp v) with 0 by lia. apply Z.shiftl_0_r.
Qed.

(** The mantissa of a representable integer, as an equation between
    integers: [m * 2^e = v] when [e >= 0], [m = v * 2^(-e)] otherwise. *)
Lemma int_man_spec (v : positive) :
  representable v = true ->
  Zpos (int_man v) * 2 ^ Z.max 0 (int_exp v)
  = Zpos v * 2 ^ Z.max 0 (- int_exp v).
Proof.
  unfold representable, int_man. intros Hr. apply Z.eqb_eq in Hr.
  destruct (Z.le_gt_cases (int_exp v) 0) as [He | He].
  - rewrite Z.max_l, Z.max_r by lia.
    rewrite Z.shiftl_mul_pow2 by lia.
    rewrite Z2Pos.id.
    + now rewrite Z.pow_0_r, Z.mul_1_r.
    + assert (0 < 2 ^ (- int_exp v)) by (apply Z.pow_pos_nonneg; lia). nia.
  - rewrite Z.max_r, Z.max_l by lia.
    rewrite Z.pow_0_r, Z.mul_1_r.
    rewrite (Z.shiftl_mul_pow2 _ (int_exp v)) in Hr by lia.
    rewrite Z2Pos.id; [exact Hr|].
    assert (0 < 2 ^ int_exp v) by (apply Z.pow_pos_nonneg; lia).
    assert (0 <= Z.shiftl (Zpos v) (- int_exp v)) by (apply Z.shiftl_nonneg; lia).
    nia.
Qed.

Lemma int_man_digits (v : positive) :
  representable v = true -> digits (int_man v) = 53.
Proof.
  intros Hr. pose proof (int_man_spec v Hr) as Hs.
  destruct (Z.le_gt_cases (int_exp v) 0) as [He | He].
  - rewrite Z.max_l, Z.max_r, Z.pow_0_r, Z.mul_1_r in Hs by lia.
    rewrite (digits_shift v (int_man v) (- int_exp v)) by (lia || assumption).
    unfold int_exp, prec. lia.
  - rewrite Z.max_r, Z.max_l, Z.pow_0_r, Z.mul_1_r in Hs by lia.
    pose proof (digits_shift (int_man v) v (int_exp v) ltac:(lia) (eq_sym Hs)) as Hd.
    unfold int_exp, prec in *. lia.
Qed.

Lemma int_bounded (v : positive) :
  representable v = true -> int_exp v <= 971 ->
  bounded prec emax (int_man v) (int_exp v) = true.
Proof.
  intros Hr He. unfold bounded, canonical_mantissa.
  rewrite (int_man_digits v Hr).
  pose proof (int_exp_lower v).
  apply andb_true_intro. split.
  - apply Z.eqb_eq. unfold fexp, SpecFloat.emin, prec, emax. lia.
  - apply Z.leb_le. unfold prec, emax. lia.
Qed.

Lemma round_int (s : bool) (M E : Z) (v : positive) :
  representable v = true -> int_exp v <= 971 ->
  E <= int_exp v -> E <= 0 -> M = Zpos v * 2 ^ (- E) ->
  binary_round_aux prec emax s M E loc_Exact
  = S754_finite s (int_man v) (int_exp v).
Proof.
  intros Hr He HE HE0 HM. apply round_exact; [now apply int_bounded | exact HE |].
  pose proof (int_man_spec v Hr) as Hs. subst M.
  destruct (Z.le_gt_cases (int_exp v) 0) as [Hn | Hp].
  - rewrite Z.max_l, Z.max_r, Z.pow_0_r, Z.mul_1_r in Hs by lia.
    rewrite Hs. replace (- E) with (- int_exp v + (int_exp v - E)) by lia.
    rewrite Z.pow_add_r by lia. ring.
  - rewrite Z.max_r, Z.max_l, Z.pow_0_r, Z.mul_1_r in Hs by lia.
    rewrite <- Hs. replace (int_exp v - E) with (int_exp v + - E) by lia.
    rewrite Z.pow_add_r by lia. ring.
Qed.

(** ** Exact sums, products, halves and comparisons of integers *)

Lemma pos_iter_xO (m d : positive) :
  Zpos (Pos.iter xO m d) = Zpos m * 2 ^ Zpos d.
Proof.
  induction d as [| d IH] using Pos.peano_ind.
  - rewrite Z.pow_1_r. cbn [Pos.iter]. lia.
  - rewrite Pos.iter_succ, Pos2Z.inj_xO, IH, Pos2Z.inj_succ, Z.pow_succ_r by lia.
    ring.
Qed.

Lemma shl_align_le (mx : positive) (ex ez : Z) :
  ez <= ex ->
  snd (shl_align mx ex ez) = ez /\
  Zpos (fst (shl_align mx ex ez)) = Zpos mx * 2 ^ (ex - ez).
Proof.
  intros H. unfold shl_align.
  destruct (ez - ex) as [| d | d] eqn:Hd; cbn [fst snd]; try lia.
  - replace (ex - ez) with 0 by lia. rewrite Z.pow_0_r. lia.
  - rewrite pos_iter_xO. split; [reflexivity|]. do 2 f_equal. lia.
Qed.

Lemma shl_align_ge (mx : positive) (ex ez : Z) :
  ex <= ez -> shl_align mx ex ez = (mx, ex).
Proof.
  intros H. unfold shl_align.
  destruct (ez - ex) as [| d | d] eqn:Hd; try reflexivity; lia.
Qed.

Lemma fexp_digits (v : positive) : fexp prec emax (digits v) = int_exp v.
Proof. unfold fexp, SpecFloat.emin, int_exp, prec, emax. lia. Qed.

Lemma binary_round_int (s : bool) (M : positive) (E : Z) (v : positive) :
  representable v = true -> int_exp v <= 971 ->
  E <= 0 -> Zpos M = Zpos v * 2 ^ (- E) ->
  binary_round prec emax s M E = S754_finite s (int_man v) (int_exp v).
Proof.
  intros Hr He HE HM. unfold binary_round.
  rewrite (digits_shift v M (- E)) by (lia || assumption).
  replace (digits v + - E + E) with (digits v) by lia.
  rewrite fexp_digits.
  destruct (Z.le_gt_cases E (int_exp v)) as [Hle | Hgt].
  - rewrite shl_align_ge by exact Hle. now apply round_int.
  - destruct (shl_align_le M E (int_exp v) ltac:(lia)) as [H1 H2].
    destruct (shl_align M E (int_exp v)) as [M' E']. cbn [fst snd] in *. subst E'.
    apply round_int; try assumption; try lia.
    rewrite H2, HM.
    replace (- int_exp v) with (- E + (E - int_exp v)) by lia.
    rewrite Z.pow_add_r by lia. ring.
Qed.

Lemma of_integer_spec (v : positive) :
  representable v = true -> int_exp v <= 971 ->
  Prim2SF (of_integer (Zpos v)) = S754_finite false (int_man v) (int_exp v).
Proof.
  intros Hr He. unfold of_integer. cbn [binary_normalize].
  rewrite (binary_round_int false v 0 v Hr He) by (cbn; lia).
  apply Prim2SF_SF2Prim. cbn [valid_binary SpecFloat.valid_binary].
  now apply int_bounded.
Qed.

Lemma of_integer_0 : of_integer 0 = 0%float.
Proof. reflexivity. Qed.

Lemma int_exp_le_971 (v : positive) (k : Z) :
  Zpos v < 2 ^ k -> 0 <= k <= 1024 -> int_exp v <= 971.
Proof.
  intros Hv Hk. pose proof (digits_bounds v) as [Blo _].
  assert (H : 2 ^ (digits v - 1) < 2 ^ k) by lia.
  apply Z.pow_lt_mono_r_iff in H; unfold int_exp, prec; lia.
Qed.

Lemma int_man_small (v : positive) :
  Zpos v < 2 ^ 53 -> Zpos (int_man v) = Zpos v * 2 ^ (- int_exp v).
Proof.
  intros Hv. pose proof (int_man_spec v (representable_small v Hv)) as Hs.
  pose proof (int_exp_small v Hv).
  now rewrite Z.max_l, Z.max_r, Z.pow_0_r, Z.mul_1_r in Hs by lia.
Qed.

Lemma of_integer_small (v : positive) :
  Zpos v < 2 ^ 53 ->
  Prim2SF (of_integer (Zpos v)) = S754_finite false (int_man v) (int_exp v).
Proof.
  intros Hv. apply of_integer_spec.
  - now apply representable_small.
  - apply (int_exp_le_971 v 53); lia.
Qed.

Local Open Scope float_scope.

Lemma add_int_pos (a b : positive) :
  (Zpos a < 2 ^ 53)%Z -> (Zpos b < 2 ^ 53)%Z ->
  representable (a + b) = true ->
  of_integer (Zpos a) + of_integer (Zpos b) = of_integer (Zpos (a + b)).
Proof.
  intros Ha Hb Hr. apply Prim2SF_inj.
  assert (Hab : (int_exp (a + b) <= 971)%Z).
  { apply (int_exp_le_971 (a + b) 54); [|lia].
    change (2 ^ 54)%Z with (2 ^ 53 + 2 ^ 53)%Z. lia. }
  rewrite add_spec, (of_integer_small a Ha), (of_integer_small b Hb).
  rewrite (of_integer_spec (a + b) Hr Hab).
  cbn [SF64add SFadd cond_Zopp].
  pose proof (int_exp_small a Ha) as Hea. pose proof (int_exp_small b Hb) as Heb.
  set (ez := Z.min (int_exp a) (int_exp b)).
  destruct (shl_align_le (int_man a) (int_exp a) ez ltac:(subst ez; lia)) as [_ Hpa].
  destruct (shl_align_le (int_man b) (int_exp b) ez ltac:(subst ez; lia)) as [_ Hpb].
  set (pa := fst (shl_align (int_man a) (int_exp a) ez)) in *.
  set (pb := fst (shl_align (int_man b) (int_exp b) ez)) in *.
  change (Zpos pa + Zpos pb)%Z with (Zpos (pa + pb)).
  cbn [binary_normalize].
  apply binary_round_int; try assumption.
  - subst ez. lia.
  - rewrite Pos2Z.inj_add, Hpa, Hpb, (int_man_small a Ha), (int_man_small b Hb).
    rewrite <- !Z.mul_assoc, <- !Z.pow_add_r by (subst ez; lia).
    replace (- int_exp a + (int_exp a - ez))%Z with (- ez)%Z by lia.
    replace (- int_exp b + (int_exp b - ez))%Z with (- ez)%Z by lia.
    rewrite Pos2Z.inj_add. ring.
Qed.

Lemma add_zero_l (x : float) (m : positive) (e : Z) :
  Prim2SF x = S754_finite false m e -> 0 + x = x.
Proof.
  intros Hx. apply Prim2SF_inj. now rewrite add_spec, Prim2SF_zero, Hx.
Qed.

(** Addition of non-negative integers is exact whenever the sum is
    representable. *)
Lemma add_int (a b : Z) :
  (0 <= a < 2 ^ 53)%Z -> (0 < b < 2 ^ 53)%Z ->
  (forall p, (a + b)%Z = Zpos p -> representable p = true) ->
  of_integer a + of_integer b = of_integer (a + b).
Proof.
  intros Ha Hb Hr.
  destruct b as [| b | b]; try lia.
  destruct a as [| a | a]; try lia.
  - rewrite of_integer_0. cbn [Z.add].
    eapply add_zero_l. apply of_integer_small. lia.
  - apply add_int_pos; try lia. now apply Hr.
Qed.

Lemma digits_mul_lower (a b : positive) :
  (digits a + digits b - 1 <= digits (a * b))%Z.
Proof.
  pose proof (digits_bounds a) as [La _].
  pose proof (digits_bounds b) as [Lb _].
  pose proof (digits_bounds (a * b)) as [_ Uab].
  rewrite Pos2Z.inj_mul in Uab.
  assert (H : (2 ^ (digits a - 1 + (digits b - 1)) < 2 ^ digits (a * b))%Z).
  { rewrite Z.pow_add_r by lia.
    assert (0 < 2 ^ (digits a - 1))%Z by (apply Z.pow_pos_nonneg; lia).
    assert (0 < 2 ^ (digits b - 1))%Z by (apply Z.pow_pos_nonneg; lia).
    nia. }
  apply Z.pow_lt_mono_r_iff in H; lia.
Qed.

Lemma mul_int_pos (a b : positive) :
  (Zpos a < 2 ^ 53)%Z -> (Zpos b < 2 ^ 53)%Z ->
  representable (a * b) = true ->
  of_integer (Zpos a) * of_integer (Zpos b) = of_integer (Zpos (a * b)).
Proof.
  intros Ha Hb Hr. apply Prim2SF_inj.
  assert (Hab : (int_exp (a * b) <= 971)%Z).
  { apply (int_exp_le_971 (a * b) 106); [|lia].
    rewrite Pos2Z.inj_mul. change (2 ^ 106)%Z with (2 ^ 53 * 2 ^ 53)%Z.
    apply Z.mul_lt_mono_nonneg; lia. }
  rewrite mul_spec, (of_integer_small a Ha), (of_integer_small b Hb).
  rewrite (of_integer_spec (a * b) Hr Hab).
  cbn [SF64mul SFmul xorb].
  pose proof (int_exp_small a Ha) as Hea. pose proof (int_exp_small b Hb) as Heb.
  pose proof (digits_mul_lower a b) as Hd.
  apply round_int; try assumption.
  - unfold int_exp, prec in *. lia.
  - lia.
  - rewrite !Pos2Z.inj_mul, (int_man_small a Ha), (int_man_small b Hb).
    replace (- (int_exp a + int_exp b))%Z with (- int_exp a + - int_exp b)%Z by lia.
    rewrite Z.pow_add_r by lia. ring.
Qed.

Lemma Prim2SF_two : Prim2SF 2 = S754_finite false 4503599627370496 (-51).
Proof. reflexivity. Qed.

(** Halving a normal number only lowers its exponent. *)
Lemma div_two (x : float) (s : bool) (m : positive) (e : Z) :
  Prim2SF x = S754_finite s m e -> digits m = 53%Z -> (-1000 <= e)%Z ->
  Prim2SF (x / 2) = S754_finite s m (e - 1).
Proof.
  intros Hx Hd He.
  pose proof (Prim2SF_valid x) as Hv. rewrite Hx in Hv.
  cbn [SpecFloat.valid_binary] in Hv. apply andb_prop in Hv as [_ Hmax].
  apply Z.leb_le in Hmax. unfold emax, prec in Hmax.
  rewrite div_spec, Hx, Prim2SF_two.
  cbn [SF64div SFdiv]. unfold SFdiv_core_binary.
  cbn [Zdigits2]. rewrite Hd.
  change (digits 4503599627370496) with 53%Z.
  replace (53 + e - (53 + -51))%Z with (e + 51)%Z by lia.
  assert (Hf : fexp prec emax (e + 51) = (e - 2)%Z).
  { unfold fexp, SpecFloat.emin, prec, emax. lia. }
  rewrite Hf.
  replace (Z.min (e - 2) (e - -51)) with (e - 2)%Z by lia.
  replace (e - -51 - (e - 2))%Z with 53%Z by lia.
  cbv iota beta.
  assert (Hq : Z.div_eucl (Z.shiftl (Zpos m) 53) 4503599627370496
               = (Zpos m~0, 0%Z)).
  { rewrite Z.shiftl_mul_pow2 by lia.
    pose proof (Z.div_eucl_eq (Zpos m * 2 ^ 53) 4503599627370496 ltac:(lia)) as Heq.
    pose proof (Z.mod_pos_bound (Zpos m * 2 ^ 53) 4503599627370496 ltac:(lia)) as Hb.
    unfold Z.modulo in Hb.
    destruct (Z.div_eucl (Zpos m * 2 ^ 53) 4503599627370496) as [q r].
    change (2 ^ 53)%Z with 9007199254740992%Z in *.
    assert (q = Zpos m~0) by lia. subst q.
    f_equal. lia. }
  rewrite Hq.
  change (new_location 4503599627370496 0) with loc_Exact.
  rewrite xorb_false_r.
  apply round_exact.
  - unfold bounded, canonical_mantissa. rewrite Hd.
    apply andb_true_intro. split.
    + apply Z.eqb_eq. unfold fexp, SpecFloat.emin, prec, emax. lia.
    + apply Z.leb_le. unfold prec, emax. lia.
  - lia.
  - replace (e - 1 - (e - 2))%Z with 1%Z by lia. rewrite Z.pow_1_r. lia.
Qed.

Lemma int_exp_double (w : positive) : int_exp w~0 = (int_exp w + 1)%Z.
Proof. unfold int_exp. cbn [digits2_pos]. lia. Qed.

Lemma int_man_double (w : positive) : int_man w~0 = int_man w.
Proof.
  unfold int_man. rewrite int_exp_double. f_equal.
  change (Zpos w~0) with (Z.shiftl (Zpos w) 1).
  rewrite Z.shiftl_shiftl by lia. f_equal. lia.
Qed.

Lemma representable_half (w : positive) :
  representable w~0 = true -> representable w = true.
Proof.
  unfold representable. rewrite int_exp_double.
  change (Zpos w~0) with (Z.shiftl (Zpos w) 1).
  rewrite (Z.shiftl_shiftl (Zpos w) 1) by lia.
  replace (1 + - (int_exp w + 1))%Z with (- int_exp w)%Z by lia.
  intros H. apply Z.eqb_eq in H. apply Z.eqb_eq.
  destruct (Z.le_gt_cases 0 (int_exp w)) as [Hp | Hn].
  - rewrite !Z.shiftl_mul_pow2 in H by lia.
    rewrite Z.shiftl_mul_pow2 by lia.
    rewrite Z.pow_add_r, Z.pow_1_r in H by lia.
    change (Z.shiftl (Zpos w) 1) with (Zpos w~0) in H. lia.
  - rewrite Z.shiftl_shiftl by lia.
    replace (- int_exp w + int_exp w)%Z with 0%Z by lia. apply Z.shiftl_0_r.
Qed.

(** Halving an even representable integer is exact. *)
Lemma div2_int (w : positive) :
  (Zpos w~0 < 2 ^ 64)%Z -> representable w~0 = true ->
  of_integer (Zpos w~0) / 2 = of_integer (Zpos w).
Proof.
  intros Hw Hr. apply Prim2SF_inj.
  pose proof (int_exp_le_971 _ 64 Hw ltac:(lia)) as He.
  rewrite (div_two _ _ _ _ (of_integer_spec _ Hr He)).
  - rewrite of_integer_spec.
    + rewrite int_man_double, int_exp_double. f_equal. lia.
    + now apply representable_half.
    + rewrite int_exp_double in He. lia.
  - now apply int_man_digits.
  - pose proof (int_exp_lower w~0). lia.
Qed.

Lemma digits_mono (a b : positive) :
  (digits a < digits b)%Z -> (Zpos a < Zpos b)%Z.
Proof.
  intros H. pose proof (digits_bounds a) as [_ Ua].
  pose proof (digits_bounds b) as [Lb _].
  assert (2 ^ digits a <= 2 ^ (digits b - 1))%Z by (apply Z.pow_le_mono_r; lia).
  lia.
Qed.

Lemma compare_int_pos (a b : positive) :
  (Zpos a < 2 ^ 53)%Z -> (Zpos b < 2 ^ 53)%Z ->
  SFcompare (Prim2SF (of_integer (Zpos a))) (Prim2SF (of_integer (Zpos b)))
  = Some (Pos.compare a b).
Proof.
  intros Ha Hb.
  rewrite (of_integer_small a Ha), (of_integer_small b Hb).
  cbn [SFcompare]. f_equal.
  destruct (Z.compare_spec (int_exp a) (int_exp b)) as [He | He | He].
  - change (Pos.compare_cont Eq (int_man a) (int_man b))
      with (Pos.compare (int_man a) (int_man b)).
    rewrite !Pos2Z.inj_compare, (int_man_small a Ha), (int_man_small b Hb), He.
    assert (HP : (0 < 2 ^ (- int_exp b))%Z).
    { apply Z.pow_pos_nonneg; [lia|]. pose proof (int_exp_small b Hb). lia. }
    destruct (Z.compare_spec (Zpos a) (Zpos b)) as [H | H | H].
    + rewrite H. apply Z.compare_refl.
    + apply Z.compare_lt_iff. nia.
    + apply Z.compare_gt_iff. nia.
  - symmetry. apply Pos.compare_lt_iff. apply Pos2Z.pos_lt_pos.
    apply digits_mono. unfold int_exp in He. lia.
  - symmetry. apply Pos.compare_gt_iff. apply Pos2Z.pos_lt_pos.
    apply digits_mono. unfold int_exp in He. lia.
Qed.

(** [<=] on floats that hold integers below [2^53] is [<=] on the integers. *)
Lemma leb_int (a b : Z) :
  (0 < a < 2 ^ 53)%Z -> (0 <= b < 2 ^ 53)%Z ->
  (of_integer a <=? of_integer b) = (a <=? b)%Z.
Proof.
  intros Ha Hb. rewrite leb_spec. unfold SFleb.
  destruct a as [| a | a]; try lia.
  destruct b as [| b | b]; try lia.
  - rewrite of_integer_0, Prim2SF_zero, (of_integer_small a) by lia.
    reflexivity.
  - rewrite compare_int_pos by lia.
    unfold Z.leb. rewrite Pos2Z.inj_compare.
    now destruct (Pos.compare a b).
Qed.

Lemma to_integer_of_integer_pos (v : positive) :
  representable v = true -> (int_exp v <= 971)%Z ->
  to_integer (of_integer (Zpos v)) = Some (Zpos v).
Proof.
  intros Hr He. unfold to_integer. rewrite (of_integer_spec v Hr He).
  pose proof (int_man_spec v Hr) as Hs.
  destruct (int_exp v) as [| p | p] eqn:Hp.
  - cbn in Hs. f_equal. lia.
  - rewrite Z.max_r, Z.max_l, Z.pow_0_r, Z.mul_1_r in Hs by lia.
    rewrite Z.shiftl_mul_pow2 by lia. now f_equal.
  - rewrite Z.max_l, Z.max_r, Z.pow_0_r, Z.mul_1_r in Hs by lia.
    change (- Zneg p)%Z with (Zpos p) in Hs.
    rewrite Z.land_ones by lia. rewrite Hs, Z.mod_mul by lia.
    cbn [Z.eqb]. rewrite Z.shiftr_div_pow2 by lia.
    rewrite Z.div_mul by lia. reflexivity.
Qed.

(** A number above zero is truthy. *)
Lemma gt0_truthy (x : float) : JsNumber.gt0 x = true -> JsNumber.truthy x = true.
Proof.
  unfold JsNumber.gt0, JsNumber.truthy, is_nan, is_zero.
  rewrite ltb_spec, !eqb_spec, Prim2SF_zero.
  destruct (Prim2SF x) as [s | s | | s m e]; cbn; try discriminate;
    try (now destruct s).
  destruct s; [discriminate|]. intros _.
  now rewrite Z.compare_refl, Pos.compare_cont_refl.
Qed.

End JsNumberFacts.

(** * Facts about the insertion-ordered map *)

Module JsMapFacts.
Section WithValue.
Variable V : Type.
Implicit Types (m : JsMap.t V) (k : string) (v : V).

Lemma get_set_same k v m : JsMap.get k (JsMap.set k v m) = Some v.
Proof.
  induction m as [| [k' v'] m IH]; cbn.
  - now rewrite String.eqb_refl.
  - destruct (String.eqb k k') eqn:E; cbn; rewrite ?String.eqb_refl, ?E; auto.
Qed.

Lemma get_set_other k k' v m :
  k <> k' -> JsMap.get k' (JsMap.set k v m) = JsMap.get k' m.
Proof.
  intros Hne. induction m as [| [k0 v0] m IH]; cbn.
  - destruct (String.eqb_spec k' k); [congruence | reflexivity].
  - destruct (String.eqb_spec k k0) as [-> | Hk]; cbn.
    + destruct (String.eqb_spec k' k0); [congruence | reflexivity].
    + destruct (String.eqb_spec k' k0); [reflexivity | exact IH].
Qed.

Lemma get_Some_In k v m : JsMap.get k m = Some v -> In (k, v) m.
Proof.
  induction m as [| [k' v'] m IH]; cbn; [discriminate|].
  destruct (String.eqb_spec k k') as [-> | Hk].
  - intros [= ->]. now left.
  - intros H. right. now apply IH.
Qed.

Lemma get_None_keys k m : JsMap.get k m = None -> ~ In k (JsMap.keys m).
Proof.
  induction m as [| [k' v'] m IH]; cbn; [tauto|].
  destruct (String.eqb_spec k k') as [-> | Hk]; [discriminate|].
  intros H [E | Hin]; [congruence | now apply IH].
Qed.

Lemma In_get k v m : NoDup (JsMap.keys m) -> In (k, v) m -> JsMap.get k m = Some v.
Proof.
  induction m as [| [k' v'] m IH]; cbn; [tauto|].
  intros Hnd [E | Hin].
  - injection E as -> ->. now rewrite String.eqb_refl.
  - inversion Hnd as [| ? ? Hnotin Hnd']; subst.
    destruct (String.eqb_spec k k') as [-> | Hk].
    + exfalso. apply Hnotin. change k' with (fst (k', v)). now apply in_map.
    + now apply IH.
Qed.

Lemma In_set k v k' v' m :
  In (k', v') (JsMap.set k v m) -> (k' = k /\ v' = v) \/ In (k', v') m.
Proof.
  induction m as [| [k0 v0] m IH]; cbn.
  - intros [[= <- <-] | []]. now left.
  - destruct (String.eqb k k0); cbn.
    + intros [[= <- <-] | Hin]; [now left | right; now right].
    + intros [E | Hin]; [right; now left |].
      destruct (IH Hin) as [? | ?]; [now left | right; now right].
Qed.

Lemma keys_set k v m :
  JsMap.keys (JsMap.set k v m)
  = match JsMap.get k m with
    | Some _ => JsMap.keys m
    | None => JsMap.keys m ++ [k]
    end.
Proof.
  induction m as [| [k' v'] m IH]; cbn; [reflexivity|].
  destruct (String.eqb_spec k k') as [-> | Hk]; cbn; [reflexivity|].
  unfold JsMap.keys in IH. rewrite IH.
  now destruct (JsMap.get k m).
Qed.

Lemma NoDup_keys_set k v m :
  NoDup (JsMap.keys m) -> NoDup (JsMap.keys (JsMap.set k v m)).
Proof.
  intros Hnd. rewrite keys_set.
  destruct (JsMap.get k m) eqn:E; [exact Hnd|].
  apply NoDup_app; [exact Hnd | repeat constructor; cbn; tauto |].
  intros x Hx [<- | []]. now apply (get_None_keys _ _ E).
Qed.

End WithValue.
End JsMapFacts.

(** * Facts about [sort] *)

Module JsArrayFacts.
Section Sort.
Variable A : Type.
Variable cmp : A -> A -> Z.

Lemma insert_perm (x : A) (l : list A) :
  Permutation (JsArray.insert cmp x l) (x :: l).
Proof.
  induction l as [| y l IH]; cbn; [reflexivity|].
  destruct (cmp x y <=? 0)%Z; [reflexivity|].
  rewrite IH. apply perm_swap.
Qed.

Lemma sort_perm (l : list A) : Permutation (JsArray.sort cmp l) l.
Proof.
  induction l as [| x l IH]; cbn; [reflexivity|].
  rewrite insert_perm. now constructor.
Qed.

Lemma sort_In (x : A) (l : list A) : In x (JsArray.sort cmp l) <-> In x l.
Proof.
  split; apply Permutation_in; [| symmetry]; apply sort_perm.
Qed.

Lemma sort_nil : JsArray.sort cmp [] = [].
Proof. reflexivity. Qed.

End Sort.
End JsArrayFacts.

(** * The reduction to the latest row per currency *)

Module ReductionFacts.
Import Swap.

Lemma time_gt_irrefl (a : TimeValue) : time_gt a a = false.
Proof. destruct a as [x |]; cbn; [apply Z.ltb_irrefl | reflexivity]. Qed.

Lemma time_gt_asym (a b : TimeValue) : time_gt a b = true -> time_gt b a = false.
Proof.
  destruct a as [x |], b as [y |]; cbn; try discriminate.
  intros H. apply Z.ltb_lt in H. apply Z.ltb_ge. lia.
Qed.

Lemma time_gt_lt (a b : TimeValue) (x y : Z) :
  a = Some x -> b = Some y -> (x < y)%Z -> time_gt b a = true.
Proof. intros -> -> H. cbn. now apply Z.ltb_lt. Qed.

Section WithClock.
Variable getTime : string -> TimeValue.

Abbreviation step := (latestStep getTime).
Abbreviation T r := (getTime (date r)).

Lemma step_cases (m : JsMap.t PriceRow) (row : PriceRow) :
  step m row = JsMap.set (currency row) row m \/ step m row = m.
Proof.
  unfold latestStep.
  destruct (JsMap.get (currency row) m) as [p |];
    [destruct (time_gt (T row) (T p)) |]; auto.
Qed.

Lemma step_NoDup (m : JsMap.t PriceRow) (row : PriceRow) :
  NoDup (JsMap.keys m) -> NoDup (JsMap.keys (step m row)).
Proof.
  intros H. destruct (step_cases m row) as [-> | ->];
    [now apply JsMapFacts.NoDup_keys_set | exact H].
Qed.

Lemma step_In (m : JsMap.t PriceRow) (row : PriceRow) k v :
  In (k, v) (step m row) -> (k = currency row /\ v = row) \/ In (k, v) m.
Proof.
  destruct (step_cases m row) as [-> | ->]; [apply JsMapFacts.In_set | auto].
Qed.

Lemma step_keyed (m : JsMap.t PriceRow) (row : PriceRow) :
  keyed m -> keyed (step m row).
Proof.
  intros Hk k v Hin. destruct (step_In _ _ _ _ Hin) as [[-> ->] | H]; auto.
Qed.

Lemma fold_NoDup (rows : list PriceRow) (m : JsMap.t PriceRow) :
  NoDup (JsMap.keys m) -> NoDup (JsMap.keys (fold_left step rows m)).
Proof.
  revert m. induction rows as [| r rows IH]; intros m H; cbn; [exact H|].
  apply IH. now apply step_NoDup.
Qed.

Lemma fold_keyed (rows : list PriceRow) (m : JsMap.t PriceRow) :
  keyed m -> keyed (fold_left step rows m).
Proof.
  revert m. induction rows as [| r rows IH]; intros m H; cbn; [exact H|].
  apply IH. now apply step_keyed.
Qed.

Lemma fold_In (rows : list PriceRow) (m : JsMap.t PriceRow) k v :
  In (k, v) (fold_left step rows m) -> In (k, v) m \/ In v rows.
Proof.
  revert m. induction rows as [| r rows IH]; intros m H; cbn in *; [now left|].
  destruct (IH _ H) as [Hs | Hr]; [| right; now right].
  destruct (step_In _ _ _ _ Hs) as [[_ ->] | Hm]; [right; now left | now left].
Qed.

Lemma latestMap_NoDup (rows : list PriceRow) :
  NoDup (JsMap.keys (latestMap getTime rows)).
Proof. apply fold_NoDup. constructor. Qed.

Lemma latestMap_keyed (rows : list PriceRow) : keyed (latestMap getTime rows).
Proof. apply fold_keyed. intros k v []. Qed.

Lemma latestMap_In (rows : list PriceRow) k v :
  In (k, v) (latestMap getTime rows) -> In v rows.
Proof. intros H. destruct (fold_In _ _ _ _ H) as [[] | ?]; assumption. Qed.

(** The currencies of the map's rows are its keys, hence distinct. *)
Lemma latestMap_currencies (rows : list PriceRow) :
  map currency (JsMap.values (latestMap getTime rows))
  = JsMap.keys (latestMap getTime rows).
Proof.
  pose proof (latestMap_keyed rows) as Hk.
  unfold JsMap.values, JsMap.keys. rewrite map_map.
  apply map_ext_in. intros [k v] Hin. cbn. now apply Hk.
Qed.

(** A row that is in the map under its currency stays there as long as no
    later row of that currency is strictly newer. *)
Lemma fold_keeps (l : list PriceRow) (m : JsMap.t PriceRow) (r : PriceRow) :
  JsMap.get (currency r) m = Some r ->
  (forall x, In x l -> currency x = currency r -> time_gt (T x) (T r) = false) ->
  JsMap.get (currency r) (fold_left step l m) = Some r.
Proof.
  revert m. induction l as [| x l IH]; intros m Hget Hl; cbn; [exact Hget|].
  apply IH; [| intros y Hy; apply Hl; now right].
  unfold latestStep.
  destruct (String.eqb_spec (currency x) (currency r)) as [E | Hne].
  - rewrite E, Hget, (Hl x (or_introl eq_refl) E). exact Hget.
  - destruct (JsMap.get (currency x) m) as [p |];
      [destruct (time_gt (T x) (T p)) |];
      rewrite ?JsMapFacts.get_set_other by exact Hne; exact Hget.
Qed.

(** A row strictly newer than the earlier rows of its currency enters the
    map. *)
Lemma step_enters (l : list PriceRow) (r : PriceRow) :
  (forall x, In x l -> currency x = currency r -> time_gt (T r) (T x) = true) ->
  JsMap.get (currency r) (step (latestMap getTime l) r) = Some r.
Proof.
  intros Hl. unfold latestStep.
  destruct (JsMap.get (currency r) (latestMap getTime l)) as [p |] eqn:E.
  - apply JsMapFacts.get_Some_In in E.
    rewrite (Hl p (latestMap_In _ _ _ E) (latestMap_keyed _ _ _ E)).
    apply JsMapFacts.get_set_same.
  - apply JsMapFacts.get_set_same.
Qed.

Lemma latestMap_selects (l1 l2 : list PriceRow) (r : PriceRow) :
  (forall x, In x l1 -> currency x = currency r -> time_gt (T r) (T x) = true) ->
  (forall x, In x l2 -> currency x = currency r -> time_gt (T x) (T r) = false) ->
  JsMap.get (currency r) (latestMap getTime (l1 ++ r :: l2)) = Some r.
Proof.
  intros H1 H2. unfold latestMap. rewrite fold_left_app. cbn [fold_left].
  apply fold_keeps; [now apply step_enters | exact H2].
Qed.

(** From the map to the two outputs. *)
Lemma latestMap_row (rows : list PriceRow) (r r' : PriceRow) :
  JsMap.get (currency r) (latestMap getTime rows) = Some r ->
  In r' (JsMap.values (latestMap getTime rows)) ->
  currency r' = currency r -> r' = r.
Proof.
  intros Hget Hin Hc. unfold JsMap.values in Hin.
  apply in_map_iff in Hin as [[k v] [<- Hkv]]. cbn in *.
  pose proof (latestMap_keyed _ _ _ Hkv) as Hk. rewrite Hc in Hk. subst k.
  apply (JsMapFacts.In_get _ _ _ _ (latestMap_NoDup rows)) in Hkv. congruence.
Qed.

Lemma latestMap_value (rows : list PriceRow) (r : PriceRow) :
  JsMap.get (currency r) (latestMap getTime rows) = Some r ->
  In r (JsMap.values (latestMap getTime rows)).
Proof.
  intros H. apply JsMapFacts.get_Some_In in H.
  unfold JsMap.values. change r with (snd (currency r, r)). now apply in_map.
Qed.

End WithClock.
End ReductionFacts.

(** * Properties of [byLatestPerCurrency] and [getLatestPrices] *)

Module PriceTable.
Import Swap ReductionFacts.

Lemma gt0_not_le0 (x : float) : JsNumber.gt0 x = true -> JsNumber.le0 x = false.
Proof.
  unfold JsNumber.gt0, JsNumber.le0.
  rewrite ltb_spec, leb_spec, JsNumberFacts.Prim2SF_zero.
  unfold SFltb, SFleb.
  destruct (Prim2SF x) as [s | s | | s m e]; cbn; try discriminate;
    now destruct s.
Qed.

Section WithEnvironment.
Variable getTime : string -> TimeValue.
Variable localeCompare : string -> string -> Z.

Abbreviation byLatest := (byLatestPerCurrency getTime).
Abbreviation getLatest := (Converter.getLatestPrices getTime localeCompare).

Lemma currencyMapOf_latestMap (data : list PriceRow) :
  Converter.currencyMapOf getTime data = latestMap getTime data.
Proof. reflexivity. Qed.

Lemma byLatest_In (rows : list PriceRow) (q : TokenMeta) :
  In q (byLatest rows) <->
  exists r, q = toTokenMeta r /\ usablePrice r = true
            /\ In r (JsMap.values (latestMap getTime rows)).
Proof.
  unfold byLatestPerCurrency. rewrite in_map_iff. split.
  - intros [r [<- Hr]]. apply filter_In in Hr as [Hin Hu]. now exists r.
  - intros [r [-> [Hu Hin]]]. exists r. split; [reflexivity|].
    apply filter_In. now split.
Qed.

Lemma getLatest_In (rows : list PriceRow) (t : PriceRow) :
  In t (getLatest rows) <->
  JsNumber.gt0 (price t) = true
  /\ In t (JsMap.values (latestMap getTime rows)).
Proof.
  unfold Converter.getLatestPrices.
  rewrite JsArrayFacts.sort_In, filter_In, currencyMapOf_latestMap.
  unfold Converter.price. tauto.
Qed.

Lemma values_In_rows (rows : list PriceRow) (r : PriceRow) :
  In r (JsMap.values (latestMap getTime rows)) -> In r rows.
Proof.
  unfold JsMap.values. rewrite in_map_iff. intros [[k v] [<- H]].
  now apply latestMap_In in H.
Qed.

(** Every quote of [byLatestPerCurrency] has a finite price above zero. *)
Lemma byLatest_price_usable (rows : list PriceRow) (q : TokenMeta) :
  In q (byLatest rows) ->
  JsNumber.isFinite (priceUSD q) = true /\ JsNumber.le0 (priceUSD q) = false.
Proof.
  intros H. apply byLatest_In in H as [r [-> [Hu _]]].
  unfold usablePrice in Hu. apply andb_prop in Hu as [Hf Hg].
  split; [exact Hf | now apply gt0_not_le0].
Qed.

(** Every row of [getLatestPrices] has a price above zero (NaN excluded). *)
Lemma getLatest_price_positive (rows : list PriceRow) (t : PriceRow) :
  In t (getLatest rows) ->
  JsNumber.le0 (price t) = false /\ is_nan (price t) = false.
Proof.
  intros H. apply getLatest_In in H as [Hg _]. split.
  - now apply gt0_not_le0.
  - unfold JsNumber.gt0 in Hg. unfold is_nan.
    rewrite ltb_spec in Hg. rewrite eqb_spec.
    unfold SFltb in Hg. unfold SFeqb.
    destruct (Prim2SF (price t)) as [s | s | | s m e]; cbn in *;
      try discriminate; try (now destruct s).
    destruct s; [discriminate|].
    rewrite Z.compare_refl, Pos.compare_cont_refl. reflexivity.
Qed.

(** C4: the output of either reduction holds at most one quote per
    currency: the currencies of the output are pairwise distinct. *)
Theorem reduce_currency_unique (rows : list PriceRow) :
  NoDup (map symbol (byLatest rows))
  /\ NoDup (map Converter.currency (getLatest rows)).
Proof.
  assert (Hf : forall p : PriceRow -> bool,
             NoDup (map currency
                        (filter p (JsMap.values (latestMap getTime rows))))).
  { intros p.
    pose proof (latestMap_NoDup getTime rows) as Hnd.
    rewrite <- latestMap_currencies in Hnd.
    induction (JsMap.values (latestMap getTime rows)) as [| r l IH];
      cbn in *; [constructor|].
    inversion Hnd as [| ? ? Hnotin Hnd']; subst.
    destruct (p r); cbn; [constructor |]; auto.
    intros Hin. apply Hnotin. apply in_map_iff in Hin as [x [Hx Hin]].
    apply filter_In in Hin as [Hin _]. rewrite <- Hx. now apply in_map. }
  split.
  - unfold byLatestPerCurrency. rewrite map_map. cbn [toTokenMeta symbol].
    apply Hf.
  - unfold Converter.getLatestPrices.
    eapply Permutation_NoDup.
    + apply Permutation_map. symmetry. apply JsArrayFacts.sort_perm.
    + rewrite currencyMapOf_latestMap. apply Hf.
Qed.

(** What both outputs hold for a currency once the map holds row [r] for
    it. *)
Lemma selected_outputs (rows : list PriceRow) (r : PriceRow) :
  JsMap.get (currency r) (latestMap getTime rows) = Some r ->
  (forall q, In q (byLatest rows) -> symbol q = currency r -> q = toTokenMeta r)
  /\ (usablePrice r = true -> In (toTokenMeta r) (byLatest rows))
  /\ (forall t, In t (getLatest rows) -> currency t = currency r -> t = r)
  /\ (JsNumber.gt0 (price r) = true -> In r (getLatest rows)).
Proof.
  intros Hget. split; [| split; [| split]].
  - intros q Hq Hs. apply byLatest_In in Hq as [r' [-> [_ Hin]]].
    f_equal. eapply latestMap_row; eauto.
  - intros Hu. apply byLatest_In. exists r.
    auto using latestMap_value.
  - intros t Ht Hc. apply getLatest_In in Ht as [_ Hin].
    eapply latestMap_row; eauto.
  - intros Hg. apply getLatest_In. auto using latestMap_value.
Qed.

(** When the row the map holds for a currency fails the price filter, the
    output has no quote for that currency at all. *)
Lemma unusable_latest_omitted (rows : list PriceRow) (r : PriceRow) :
  JsMap.get (currency r) (latestMap getTime rows) = Some r ->
  (usablePrice r = false ->
   forall q, In q (byLatest rows) -> symbol q <> currency r)
  /\ (JsNumber.gt0 (price r) = false ->
      forall t, In t (getLatest rows) -> currency t <> currency r).
Proof.
  intros Hget. destruct (selected_outputs _ _ Hget) as [H1 [_ [H3 _]]]. split.
  - intros Hu q Hq Hs. pose proof (H1 q Hq Hs) as ->.
    apply byLatest_In in Hq as [r' [E [Hu' _]]].
    assert (Hp : price r' = price r) by now injection E.
    unfold usablePrice in *. rewrite Hp in Hu'. congruence.
  - intros Hg t Ht Hc. pose proof (H3 t Ht Hc) as ->.
    apply getLatest_In in Ht as [Hg' _]. congruence.
Qed.

(** C7: [getLatestPrices] does not leave out every malformed row.  When a
    row whose price is [Infinity] is newer than every other row of its
    currency, [getLatestPrices] returns that row, although its price is not
    finite; [byLatestPerCurrency] on the same input has no quote for that
    currency. *)
Theorem getLatestPrices_returns_malformed_row (l1 l2 : list PriceRow)
        (r : PriceRow) :
  price r = infinity ->
  (forall x, In x (l1 ++ l2) -> currency x = currency r ->
             time_gt (getTime (date r)) (getTime (date x)) = true) ->
  let rows := l1 ++ r :: l2 in
  usablePrice r = false
  /\ In r (getLatest rows)
  /\ (forall q, In q (byLatest rows) -> symbol q <> currency r).
Proof.
  intros Hp Hnew rows.
  assert (Hu : usablePrice r = false) by (unfold usablePrice; now rewrite Hp).
  assert (Hg : JsNumber.gt0 (price r) = true) by now rewrite Hp.
  assert (Hget : JsMap.get (currency r) (latestMap getTime rows) = Some r).
  { apply latestMap_selects.
    - intros x Hx. apply Hnew, in_or_app. now left.
    - intros x Hx Hc. apply time_gt_asym, Hnew; [| exact Hc].
      apply in_or_app. now right. }
  split; [exact Hu |]. split.
  - now apply (selected_outputs _ _ Hget).
  - now apply (unusable_latest_omitted _ _ Hget).
Qed.

(** C3: when a row [r2] of some currency carries timestamp [t2] and every
    other row of that currency, before or after it in the input, carries an
    earlier timestamp, the quote for that currency is the one of [r2]: its
    [updatedAt] is the date of [r2], wherever [r2] stands in the input. *)
Theorem latest_wins (l1 l2 : list PriceRow) (r2 : PriceRow) (t2 : Z) :
  getTime (date r2) = Some t2 ->
  (forall x, In x (l1 ++ l2) -> currency x = currency r2 ->
             exists t1, getTime (date x) = Some t1 /\ (t1 < t2)%Z) ->
  let rows := l1 ++ r2 :: l2 in
  (forall q, In q (byLatest rows) -> symbol q = currency r2 ->
             updatedAt q = date r2 /\ priceUSD q = price r2)
  /\ (usablePrice r2 = true -> In (toTokenMeta r2) (byLatest rows))
  /\ (forall t, In t (getLatest rows) -> currency t = currency r2 -> t = r2)
  /\ (JsNumber.gt0 (price r2) = true -> In r2 (getLatest rows)).
Proof.
  intros Ht2 Hold rows.
  assert (Hnew : forall x, In x (l1 ++ l2) -> currency x = currency r2 ->
                           time_gt (getTime (date r2)) (getTime (date x)) = true).
  { intros x Hx Hc. destruct (Hold x Hx Hc) as [t1 [E Hlt]].
    eapply time_gt_lt; eauto. }
  assert (Hget : JsMap.get (currency r2) (latestMap getTime rows) = Some r2).
  { apply latestMap_selects.
    - intros x Hx. apply Hnew, in_or_app. now left.
    - intros x Hx Hc. apply time_gt_asym, Hnew; [apply in_or_app; now right | exact Hc]. }
  destruct (selected_outputs _ _ Hget) as [H1 [H2 [H3 H4]]].
  split; [| now auto].
  intros q Hq Hs. now rewrite (H1 q Hq Hs).
Qed.

(** C10: of two rows [r1], [r2] of one currency with the same time value,
    [r1] standing first, the reduction keeps [r1] (the strict comparison
    does not replace on a tie), the other rows of that currency being
    older. *)
Theorem tie_first_wins (l1 l2 l3 : list PriceRow) (r1 r2 : PriceRow) :
  currency r2 = currency r1 ->
  getTime (date r2) = getTime (date r1) ->
  (forall x, In x (l1 ++ l2 ++ l3) -> currency x = currency r1 ->
             time_gt (getTime (date r1)) (getTime (date x)) = true) ->
  let rows := l1 ++ r1 :: l2 ++ r2 :: l3 in
  JsMap.get (currency r1) (latestMap getTime rows) = Some r1
  /\ JsMap.get (currency r1) (Converter.currencyMapOf getTime rows) = Some r1
  /\ (forall q, In q (byLatest rows) -> symbol q = currency r1 ->
                q = toTokenMeta r1)
  /\ (usablePrice r1 = true -> In (toTokenMeta r1) (byLatest rows))
  /\ (forall t, In t (getLatest rows) -> currency t = currency r1 -> t = r1)
  /\ (JsNumber.gt0 (price r1) = true -> In r1 (getLatest rows)).
Proof.
  intros Hc Ht Hold rows.
  assert (Hget : JsMap.get (currency r1) (latestMap getTime rows) = Some r1).
  { apply latestMap_selects.
    - intros x Hx. apply Hold, in_or_app. now left.
    - intros x Hx Hcx. apply in_app_or in Hx as [Hx | [<- | Hx]].
      + apply time_gt_asym, Hold; [| exact Hcx].
        apply in_or_app. right. apply in_or_app. now left.
      + rewrite Ht. apply time_gt_irrefl.
      + apply time_gt_asym, Hold; [| exact Hcx].
        apply in_or_app. right. apply in_or_app. now right. }
  split; [exact Hget|]. split; [exact Hget|].
  now apply selected_outputs.
Qed.

(** C2: [getLatestPrices] filters on [price > 0] alone, so a row whose
    price is [Infinity] passes, while [byLatestPerCurrency], which also
    tests [isFinite], leaves it out. *)
Theorem getLatestPrices_keeps_infinite_price :
  let bad := {| currency := "X"; date := "2024-01-01"; price := infinity |} in
  JsNumber.isFinite (price bad) = false
  /\ getLatest [bad] = [bad]
  /\ byLatest [bad] = [].
Proof. repeat split. Qed.

(** Scenario 5 of the specification: the empty input gives the empty
    output. *)
Example scenario_empty : byLatest [] = [] /\ getLatest [] = [].
Proof. split; reflexivity. Qed.

End WithEnvironment.

(** The rows of the test scenarios. *)
Example scenario_rows :
  byLatestPerCurrency Sample.getTime
    [ {| currency := "ETH"; date := "2024-01-01"; price := 3000 |};
      {| currency := "ETH"; date := "2024-01-02"; price := 3100 |};
      {| currency := "USDC"; date := "2024-01-01"; price := 1 |} ]
  = [ {| symbol := "ETH"; priceUSD := 3100; updatedAt := "2024-01-02" |};
      {| symbol := "USDC"; priceUSD := 1; updatedAt := "2024-01-01" |} ].
Proof. reflexivity. Qed.

Example scenario_zero_price :
  byLatestPerCurrency Sample.getTime
    [ {| currency := "ETH"; date := "2024-01-01"; price := 3000 |};
      {| currency := "ETH"; date := "2024-01-02"; price := 0 |} ] = []
  /\ Converter.getLatestPrices Sample.getTime Sample.localeCompare
       [ {| currency := "ETH"; date := "2024-01-01"; price := 3000 |};
         {| currency := "ETH"; date := "2024-01-02"; price := 0 |} ] = [].
Proof. split; reflexivity. Qed.

Lemma getLatestPrices_returns_malformed_row_witness :
  let old := {| currency := "ETH"; date := "2024-01-01"; price := 3000 |} in
  let bad := {| currency := "ETH"; date := "2024-01-02"; price := infinity |} in
  let usdc := {| currency := "USDC"; date := "2024-01-01"; price := 1 |} in
  let rows := [old; bad; usdc] in
  usablePrice bad = false
  /\ In bad (Converter.getLatestPrices Sample.getTime Sample.localeCompare rows)
  /\ (forall q, In q (byLatestPerCurrency Sample.getTime rows) ->
                symbol q <> currency bad).
Proof.
  intros old bad usdc rows.
  apply (getLatestPrices_returns_malformed_row
           Sample.getTime Sample.localeCompare [old] [usdc] bad).
  - reflexivity.
  - intros x [<- | [<- | []]] Hc.
    + reflexivity.
    + discriminate Hc.
Defined.

(** The same input, evaluated. *)
Example scenario_infinite_price :
  let old := {| currency := "ETH"; date := "2024-01-01"; price := 3000 |} in
  let bad := {| currency := "ETH"; date := "2024-01-02"; price := infinity |} in
  let usdc := {| currency := "USDC"; date := "2024-01-01"; price := 1 |} in
  Converter.getLatestPrices Sample.getTime Sample.localeCompare [old; bad; usdc]
  = [bad; usdc]
  /\ byLatestPerCurrency Sample.getTime [old; bad; usdc] = [toTokenMeta usdc].
Proof. split; reflexivity. Qed.

Lemma latest_wins_witness :
  let r1 := {| currency := "ETH"; date := "2024-01-01"; price := 3000 |} in
  let r2 := {| currency := "ETH"; date := "2024-01-02"; price := 3100 |} in
  let r3 := {| currency := "USDC"; date := "2024-01-01"; price := 1 |} in
  let rows := [r1; r2; r3] in
  (forall q, In q (byLatestPerCurrency Sample.getTime rows) ->
             symbol q = "ETH"%string ->
             updatedAt q = "2024-01-02"%string /\ priceUSD q = 3100%float)
  /\ (usablePrice r2 = true ->
      In (toTokenMeta r2) (byLatestPerCurrency Sample.getTime rows))
  /\ (forall t,
        In t (Converter.getLatestPrices Sample.getTime Sample.localeCompare rows) ->
        currency t = "ETH"%string -> t = r2)
  /\ (JsNumber.gt0 (price r2) = true ->
      In r2 (Converter.getLatestPrices Sample.getTime Sample.localeCompare rows)).
Proof.
  intros r1 r2 r3 rows.
  apply (latest_wins Sample.getTime Sample.localeCompare [r1] [r3] r2
                     1704153600000%Z).
  - reflexivity.
  - intros x [<- | [<- | []]] Hc.
    + exists 1704067200000%Z. split; [reflexivity | reflexivity].
    + discriminate Hc.
Defined.

Lemma tie_first_wins_witness :
  let r1 := {| currency := "ETH"; date := "2024-01-02"; price := 3100 |} in
  let r2 := {| currency := "ETH"; date := "2024-01-02"; price := 3200 |} in
  let u := {| currency := "USDC"; date := "2024-01-01"; price := 1 |} in
  let old := {| currency := "ETH"; date := "2024-01-01"; price := 3000 |} in
  let rows := [r1; u; r2; old] in
  JsMap.get "ETH" (latestMap Sample.getTime rows) = Some r1
  /\ JsMap.get "ETH" (Converter.currencyMapOf Sample.getTime rows) = Some r1
  /\ (forall q, In q (byLatestPerCurrency Sample.getTime rows) ->
                symbol q = "ETH"%string -> q = toTokenMeta r1)
  /\ (usablePrice r1 = true ->
      In (toTokenMeta r1) (byLatestPerCurrency Sample.getTime rows))
  /\ (forall t,
        In t (Converter.getLatestPrices Sample.getTime Sample.localeCompare rows) ->
        currency t = "ETH"%string -> t = r1)
  /\ (JsNumber.gt0 (price r1) = true ->
      In r1 (Converter.getLatestPrices Sample.getTime Sample.localeCompare rows)).
Proof.
  intros r1 r2 u old rows.
  apply (tie_first_wins Sample.getTime Sample.localeCompare [] [u] [old] r1 r2).
  - reflexivity.
  - reflexivity.
  - intros x [<- | [<- | []]] Hc.
    + discriminate Hc.
    + reflexivity.
Defined.

End PriceTable.

(** * Conversion arithmetic *)

Module Conversion.
Import Swap Sample.
Local Open Scope float_scope.

Lemma isFinite_not_nan (x : float) :
  JsNumber.isFinite x = true -> (x =? x) = true.
Proof.
  unfold JsNumber.isFinite, is_finite, is_nan.
  destruct (x =? x); [reflexivity | discriminate].
Qed.

(** [Number(amountIn) || 0] is the parsed number unless that is [0], [-0]
    or NaN, and [0] then. *)
Lemma amountInNum_cases (parsed : float) :
  (JsNumber.truthy parsed = true /\ amountInNum parsed = parsed)
  \/ (JsNumber.truthy parsed = false /\ amountInNum parsed = 0).
Proof.
  unfold amountInNum, JsNumber.or_zero.
  destruct (JsNumber.truthy parsed); [left | right]; split; reflexivity.
Qed.

(** What [convertCurrency] computes once its guards have passed. *)
Lemma convertCurrency_computes (parseFloat : string -> float) (now : string)
      (st : Converter.State) (f t : Converter.Token) :
  JsNumber.truthy (parseFloat (Converter.st_amount st)) = true ->
  Converter.nonEmpty (Converter.st_fromCurrency st) = true ->
  Converter.nonEmpty (Converter.st_toCurrency st) = true ->
  find (fun x => String.eqb (Converter.currency x) (Converter.st_fromCurrency st))
       (Converter.st_tokens st) = Some f ->
  find (fun x => String.eqb (Converter.currency x) (Converter.st_toCurrency st))
       (Converter.st_tokens st) = Some t ->
  let amountNum := parseFloat (Converter.st_amount st) in
  let rate := Converter.price f / Converter.price t in
  let st' := Converter.convertCurrency parseFloat now st in
  Converter.st_result st' = Some (amountNum * rate)
  /\ Converter.st_history st'
     = Converter.newHistory
         {| Converter.from := Converter.st_fromCurrency st;
            Converter.to := Converter.st_toCurrency st;
            Converter.amount := amountNum;
            Converter.result := amountNum * rate;
            Converter.rate := rate;
            Converter.timestamp := now |}
         (Converter.st_history st).
Proof.
  intros Ha Hf Ht Hff Hft. cbv zeta. unfold Converter.convertCurrency.
  rewrite Ha, Hf, Ht, Hff, Hft. cbn. split; reflexivity.
Qed.

(** C1: with both tokens present, the derived numbers of [SwapApp] are, in
    this order, [rate = from.priceUSD / to.priceUSD],
    [amountOut = amountIn * rate], [fee = amountOut * (feeBps / 10000)],
    [minReceived = amountOut * (1 - slippage / 100) - fee]; and
    [convertCurrency], once its guards have passed, computes the same rate
    and the same output amount. *)
Theorem convert_formulas :
  (forall (f t : TokenMeta) (amountIn feeBps slippage : float),
      let q := derive (Some f) (Some t) amountIn feeBps slippage in
      q_rate q = priceUSD f / priceUSD t
      /\ q_amountOut q = amountIn * q_rate q
      /\ q_platformFee q = q_amountOut q * (feeBps / 10000)
      /\ q_minReceived q
         = q_amountOut q * (1 - slippage / 100) - q_platformFee q)
  /\ (forall (parseFloat : string -> float) (now : string)
             (st : Converter.State) (f t : Converter.Token),
         JsNumber.truthy (parseFloat (Converter.st_amount st)) = true ->
         Converter.nonEmpty (Converter.st_fromCurrency st) = true ->
         Converter.nonEmpty (Converter.st_toCurrency st) = true ->
         find (fun x => String.eqb (Converter.currency x)
                                   (Converter.st_fromCurrency st))
              (Converter.st_tokens st) = Some f ->
         find (fun x => String.eqb (Converter.currency x)
                                   (Converter.st_toCurrency st))
              (Converter.st_tokens st) = Some t ->
         let q := derive (Some (toTokenMeta f)) (Some (toTokenMeta t))
                         (parseFloat (Converter.st_amount st)) 0 0 in
         let st' := Converter.convertCurrency parseFloat now st in
         Converter.st_result st' = Some (q_amountOut q)
         /\ option_map Converter.rate (hd_error (Converter.st_history st'))
            = Some (q_rate q)
         /\ option_map Converter.result (hd_error (Converter.st_history st'))
            = Some (q_amountOut q)).
Proof.
  split.
  - intros f t amountIn feeBps slippage. cbv zeta. repeat split.
  - intros parseFloat now st f t Ha Hf Ht Hff Hft. cbv zeta.
    destruct (convertCurrency_computes parseFloat now st f t Ha Hf Ht Hff Hft)
      as [Hr Hh].
    rewrite Hr, Hh. repeat split.
Qed.

Lemma convert_formulas_witness :
  let st :=
    {| Converter.st_tokens :=
         [ {| currency := "ETH"; date := "2024-01-02"; price := 3100 |};
           {| currency := "USDC"; date := "2024-01-01"; price := 1 |} ];
       Converter.st_fromCurrency := "ETH";
       Converter.st_toCurrency := "USDC";
       Converter.st_amount := "2";
       Converter.st_result := None;
       Converter.st_history := [];
       Converter.st_sessionStorage := None |} in
  let st' := Converter.convertCurrency Sample.parseFloat "now" st in
  Converter.st_result st' = Some 6200
  /\ option_map Converter.rate (hd_error (Converter.st_history st')) = Some 3100
  /\ option_map Converter.result (hd_error (Converter.st_history st'))
     = Some 6200.
Proof.
  intros st st'.
  apply (proj2 convert_formulas Sample.parseFloat "now"%string st
               {| currency := "ETH"; date := "2024-01-02"; price := 3100 |}
               {| currency := "USDC"; date := "2024-01-01"; price := 1 |});
    reflexivity.
Defined.

(** Scenario 2 of the specification. *)
Example scenario_2 :
  derive (Some eth) (Some usdc) 2 0 0
  = {| q_rate := 3100; q_amountOut := 6200;
       q_platformFee := 0; q_minReceived := 6200 |}.
Proof. reflexivity. Qed.

(** C5, as stated, fails: with ETH at 3100, USDC at 1, [amountIn = 2],
    [feeBps = 20] and [slippage = 0.5] the minimum received is not 6157.6;
    it is below 6157. *)
Lemma scenario_3_not_6157_6 :
  q_minReceived (derive (Some eth) (Some usdc) 2 20 0.5) <> 6157.6
  /\ (q_minReceived (derive (Some eth) (Some usdc) 2 20 0.5) <? 6157) = true.
Proof.
  split; [| reflexivity].
  intros H. apply (f_equal (fun x => x =? 6157.6)) in H.
  vm_compute in H. discriminate H.
Qed.

(** C5, amended: for these inputs the fee is 12.4 and the minimum received
    is [6200 * 0.995 - 12.4 = 6156.6] (each the binary64 value nearest to
    the decimal), with [rate = 3100] and [amountOut = 6200]. *)
Theorem scenario_3 :
  derive (Some eth) (Some usdc) 2 defaultFeeBps defaultSlippage
  = {| q_rate := 3100; q_amountOut := 6200;
       q_platformFee := 12.4; q_minReceived := 6156.6 |}.
Proof. reflexivity. Qed.

(** C6: with the same quote on both sides, a finite price above zero and a
    finite amount above zero, and no fee and no slippage, the rate is 1 and
    the output amount is the input amount, both as identical values and
    under [==]: for the derived numbers of [SwapApp], and for
    [convertCurrency] when the source and the target currency are the same
    and the token found for it has such a price (the result shown and the
    entry saved to the history then carry rate 1 and the amount entered). *)
Theorem same_quote_identity :
  (forall (q : TokenMeta) (amountIn : float),
      JsNumber.isFinite (priceUSD q) = true ->
      JsNumber.gt0 (priceUSD q) = true ->
      JsNumber.isFinite amountIn = true -> JsNumber.gt0 amountIn = true ->
      let r := derive (Some q) (Some q) amountIn 0 0 in
      q_rate r = 1 /\ q_amountOut r = amountIn
      /\ (q_rate r =? 1) = true /\ (q_amountOut r =? amountIn) = true)
  /\ (forall (parseFloat : string -> float) (now : string)
             (st : Converter.State) (t : Converter.Token),
         let amountNum := parseFloat (Converter.st_amount st) in
         JsNumber.isFinite amountNum = true -> JsNumber.gt0 amountNum = true ->
         Converter.nonEmpty (Converter.st_fromCurrency st) = true ->
         Converter.st_toCurrency st = Converter.st_fromCurrency st ->
         find (fun x => String.eqb (Converter.currency x)
                                   (Converter.st_fromCurrency st))
              (Converter.st_tokens st) = Some t ->
         JsNumber.isFinite (Converter.price t) = true ->
         JsNumber.gt0 (Converter.price t) = true ->
         let st' := Converter.convertCurrency parseFloat now st in
         Converter.st_result st' = Some amountNum
         /\ (exists c,
               hd_error (Converter.st_history st') = Some c
               /\ Converter.rate c = 1 /\ Converter.result c = amountNum
               /\ (Converter.rate c =? 1) = true
               /\ (Converter.result c =? Converter.amount c) = true)).
Proof.
  split.
  - intros q amountIn Hf Hg Haf Hag. cbv zeta.
    destruct (JsNumberFacts.finite_pos_inv _ Hf Hg) as [m [e Hq]].
    assert (Hrate : q_rate (derive (Some q) (Some q) amountIn 0 0) = 1).
    { cbn. now apply (JsNumberFacts.div_self _ _ _ _ Hq). }
    assert (Hout : q_amountOut (derive (Some q) (Some q) amountIn 0 0)
                   = amountIn).
    { change (q_amountOut (derive (Some q) (Some q) amountIn 0 0))
        with (amountIn * q_rate (derive (Some q) (Some q) amountIn 0 0)).
      rewrite Hrate. apply JsNumberFacts.mul_one_r. }
    rewrite Hrate, Hout. repeat split. now apply isFinite_not_nan.
  - intros parseFloat now st t amountNum Haf Hag Hfrom Hto Hfind Hpf Hpg.
    cbv zeta.
    assert (Htruthy : JsNumber.truthy amountNum = true)
      by (apply JsNumberFacts.gt0_truthy; exact Hag).
    assert (Hnto : Converter.nonEmpty (Converter.st_toCurrency st) = true)
      by (rewrite Hto; exact Hfrom).
    assert (Hfind' :
              find (fun x => String.eqb (Converter.currency x)
                                        (Converter.st_toCurrency st))
                   (Converter.st_tokens st) = Some t)
      by (rewrite Hto; exact Hfind).
    destruct (convertCurrency_computes parseFloat now st t t
                Htruthy Hfrom Hnto Hfind Hfind') as [Hr Hh].
    destruct (JsNumberFacts.finite_pos_inv _ Hpf Hpg) as [m [e Hq]].
    assert (Hrate : Converter.price t / Converter.price t = 1)
      by (apply (JsNumberFacts.div_self _ _ _ _ Hq)).
    fold amountNum in Hr, Hh. rewrite Hrate in Hr, Hh.
    rewrite JsNumberFacts.mul_one_r in Hr, Hh.
    split; [exact Hr |].
    rewrite Hh. unfold Converter.newHistory, JsArray.slice0.
    rewrite firstn_cons. cbn [hd_error].
    eexists. split; [reflexivity |]. cbn.
    repeat split. now apply isFinite_not_nan.
Qed.

Lemma same_quote_identity_witness :
  (let r := derive (Some eth) (Some eth) 2 0 0 in
   q_rate r = 1 /\ q_amountOut r = 2
   /\ (q_rate r =? 1) = true /\ (q_amountOut r =? 2) = true)
  /\ (let st :=
        {| Converter.st_tokens :=
             [ {| currency := "ETH"; date := "2024-01-02"; price := 3100 |};
               {| currency := "USDC"; date := "2024-01-01"; price := 1 |} ];
           Converter.st_fromCurrency := "ETH";
           Converter.st_toCurrency := "ETH";
           Converter.st_amount := "2";
           Converter.st_result := None;
           Converter.st_history := [];
           Converter.st_sessionStorage := None |} in
      let st' := Converter.convertCurrency Sample.parseFloat "now" st in
      Converter.st_result st' = Some 2
      /\ (exists c,
            hd_error (Converter.st_history st') = Some c
            /\ Converter.rate c = 1 /\ Converter.result c = 2
            /\ (Converter.rate c =? 1) = true
            /\ (Converter.result c =? Converter.amount c) = true)).
Proof.
  split.
  - apply (proj1 same_quote_identity eth 2); reflexivity.
  - intros st st'.
    apply (proj2 same_quote_identity Sample.parseFloat "now"%string st
                 {| currency := "ETH"; date := "2024-01-02"; price := 3100 |});
      reflexivity.
Defined.

End Conversion.

(** * Conversion history *)

Module History.
Import Converter.

(** C8: after [saveToHistory] the history holds at most 10 entries, the
    saved conversion is its first element, and it is followed by the 9 most
    recent earlier entries in their order. *)
Theorem saveToHistory_capped (conversion : ConversionHistory) (st : State) :
  let st' := saveToHistory conversion st in
  (List.length (st_history st') <= 10)%nat
  /\ hd_error (st_history st') = Some conversion
  /\ st_history st' = conversion :: firstn 9 (st_history st).
Proof.
  cbv zeta. unfold saveToHistory, newHistory, JsArray.slice0, setItem, setHistory.
  cbn [st_history]. rewrite firstn_cons.
  repeat split. cbn [List.length].
  pose proof (firstn_le_length 9 (st_history st)). lia.
Qed.

(** What is stored beside it is the JSON text of the new history, in which
    a number that is not finite is written as [null] and [-0] as [0]. *)
Lemma saveToHistory_stores (conversion : ConversionHistory) (st : State) :
  let st' := saveToHistory conversion st in
  st_sessionStorage st' = Some (stringify (st_history st')).
Proof. reflexivity. Qed.

Example jsonNumber_cases :
  jsonNumber 6200 = Some 6200%float
  /\ jsonNumber neg_zero = Some 0%float
  /\ jsonNumber infinity = None
  /\ jsonNumber nan = None.
Proof. repeat split. Qed.

End History.

(** * The three sums *)

Module SumToNFacts.
Import JsNumber JsNumberFacts SumToN.
Local Open Scope Z_scope.

Lemma tri_double (k : Z) : 2 * tri k = k * (k + 1).
Proof.
  unfold tri.
  assert (H : (k * (k + 1)) mod 2 = 0).
  { rewrite Z.mul_mod by lia.
    destruct (Z.mod_pos_bound k 2 ltac:(lia)) as [H0 H1].
    rewrite <- (Z.add_mod_idemp_l k 1 2) by lia.
    assert (Hc : k mod 2 = 0 \/ k mod 2 = 1) by lia.
    destruct Hc as [-> | ->]; reflexivity. }
  pose proof (Z.div_mod (k * (k + 1)) 2 ltac:(lia)). lia.
Qed.

Lemma tri_succ (k : Z) : tri (k + 1) = tri k + (k + 1).
Proof.
  pose proof (tri_double k). pose proof (tri_double (k + 1)). nia.
Qed.

Lemma tri_nonneg (k : Z) : 0 <= k -> 0 <= tri k.
Proof. intros H. pose proof (tri_double k). nia. Qed.

Lemma tri_small (k : Z) : 0 <= k < 2 ^ 27 -> tri k < 2 ^ 53.
Proof.
  intros H. pose proof (tri_double k).
  change (2 ^ 27) with 134217728 in H.
  change (2 ^ 53) with 9007199254740992. nia.
Qed.

Lemma tri_representable (k : Z) (p : positive) :
  0 <= k <= 2 ^ 27 -> tri k = Zpos p -> representable p = true.
Proof.
  intros Hk Hp.
  destruct (Z.eq_dec k (2 ^ 27)) as [-> | Hne].
  - vm_compute in Hp. injection Hp as <-. vm_compute. reflexivity.
  - apply representable_small. rewrite <- Hp. apply tri_small. lia.
Qed.

Lemma representable_double (w : positive) :
  Zpos w < 2 ^ 53 -> representable w~0 = true.
Proof.
  intros Hw.
  destruct (Z.lt_ge_cases (Zpos w~0) (2 ^ 53)) as [Hs | Hl].
  - now apply representable_small.
  - assert (Hd : digits w~0 = 54).
    { apply digits_unique. change (2 ^ (54 - 1)) with (2 ^ 53).
      change (2 ^ 54) with (2 * 2 ^ 53). lia. }
    unfold representable, int_exp. rewrite Hd. apply Z.eqb_eq. reflexivity.
Qed.

Lemma prod_representable (n : Z) (p : positive) :
  0 < n <= 2 ^ 27 -> n * (n + 1) = Zpos p -> representable p = true.
Proof.
  intros Hn Hp.
  destruct (Z.eq_dec n (2 ^ 27)) as [-> | Hne].
  - vm_compute in Hp. injection Hp as <-. vm_compute. reflexivity.
  - pose proof (tri_double n) as Hd. pose proof (tri_small n ltac:(lia)) as Hs.
    destruct (tri n) as [| t | t] eqn:Ht; try lia.
    assert (p = xO t) by lia. subst p. now apply representable_double.
Qed.

Local Open Scope float_scope.

Lemma of_integer_1 : of_integer 1 = 1.
Proof. reflexivity. Qed.

Lemma succ_int (k : Z) :
  (0 <= k <= 2 ^ 27)%Z -> of_integer k + 1 = of_integer (k + 1).
Proof.
  intros Hk. rewrite <- of_integer_1.
  change (2 ^ 27)%Z with 134217728%Z in Hk.
  apply add_int; change (2 ^ 53)%Z with 9007199254740992%Z; try lia.
  intros p Hp. apply representable_small.
  change (2 ^ 53)%Z with 9007199254740992%Z. lia.
Qed.

Lemma tri_step_int (k : Z) :
  (0 <= k < 2 ^ 27)%Z ->
  of_integer (tri k) + of_integer (k + 1) = of_integer (tri (k + 1)).
Proof.
  intros Hk. rewrite tri_succ.
  pose proof (tri_nonneg k ltac:(lia)). pose proof (tri_small k Hk).
  apply add_int; try lia.
  intros p Hp. apply (tri_representable (k + 1)); [lia|].
  now rewrite tri_succ.
Qed.

Lemma sum_to_n_c_exact (n : Z) :
  (0 <= n <= 2 ^ 27)%Z -> sum_to_n_c (of_integer n) = of_integer (tri n).
Proof.
  intros Hn. unfold sum_to_n_c.
  destruct (Z.eq_dec n 0) as [-> | Hz]; [reflexivity|].
  rewrite succ_int by exact Hn.
  pose proof (tri_double n) as Hd.
  assert (Hb : (n < 2 ^ 53 /\ n + 1 < 2 ^ 53)%Z).
  { change (2 ^ 27)%Z with 134217728%Z in Hn.
    change (2 ^ 53)%Z with 9007199254740992%Z. lia. }
  destruct n as [| a | a]; try lia.
  destruct (Z.pos a + 1)%Z as [| b | b] eqn:Hb1; try lia.
  assert (Hr : representable (a * b) = true).
  { apply (prod_representable (Zpos a)); [lia|]. rewrite Hb1. reflexivity. }
  rewrite mul_int_pos by (lia || assumption).
  destruct (tri (Z.pos a)) as [| t | t] eqn:Ht; try lia.
  assert (Hab : (a * b)%positive = xO t) by lia.
  rewrite Hab in *.
  apply div2_int; [|assumption].
  pose proof (tri_nonneg (Zpos a) ltac:(lia)).
  change (2 ^ 27)%Z with 134217728%Z in Hn.
  change (2 ^ 64)%Z with 18446744073709551616%Z. nia.
Qed.

Lemma sum_to_n_b_loop_exact (n : Z) :
  (0 <= n <= 2 ^ 27)%Z ->
  forall (fuel : nat) (k : Z),
    (1 <= k <= n + 1)%Z -> (Z.to_nat (n + 1 - k) < fuel)%nat ->
    sum_to_n_b_loop fuel (of_integer n) (of_integer k) (of_integer (tri (k - 1)))
    = Some (of_integer (tri n)).
Proof.
  intros Hn fuel. induction fuel as [| fuel IH]; intros k Hk Hf; [lia|].
  cbn [sum_to_n_b_loop].
  assert (H53 : (2 ^ 27 + 1 < 2 ^ 53)%Z) by reflexivity.
  rewrite leb_int by lia.
  destruct (Z.leb_spec k n) as [Hle | Hgt].
  - rewrite succ_int by lia.
    replace (of_integer (tri (k - 1)) + of_integer k)
      with (of_integer (tri k)).
    + replace (tri k) with (tri (k + 1 - 1)) by (f_equal; lia).
      apply IH; lia.
    + pose proof (tri_step_int (k - 1) ltac:(lia)) as Hs.
      replace (k - 1 + 1)%Z with k in Hs by lia. now rewrite Hs.
  - replace (k - 1)%Z with n by lia. reflexivity.
Qed.

Lemma sum_to_n_b_exact (n : Z) (fuel : nat) :
  (0 <= n <= 2 ^ 27)%Z -> (Z.to_nat n < fuel)%nat ->
  sum_to_n_b fuel (of_integer n) = Some (of_integer (tri n)).
Proof.
  intros Hn Hf. unfold sum_to_n_b.
  change 1 with (of_integer 1). change 0 with (of_integer (tri (1 - 1))).
  apply sum_to_n_b_loop_exact; lia.
Qed.

Lemma to_integer_of_integer (n : Z) :
  (0 <= n < 2 ^ 53)%Z -> to_integer (of_integer n) = Some n.
Proof.
  intros Hn. destruct n as [| p | p]; try lia; [reflexivity|].
  apply to_integer_of_integer_pos.
  - apply representable_small. lia.
  - apply (int_exp_le_971 p 53); lia.
Qed.

Lemma Array_keys_exact (n : Z) :
  (0 <= n <= 2 ^ 27)%Z ->
  Array_keys (of_integer n)
  = Some (map (fun k => of_integer (Z.of_nat k)) (seq 0 (Z.to_nat n))).
Proof.
  intros Hn. unfold Array_keys.
  assert (H53 : (2 ^ 27 < 2 ^ 53)%Z) by reflexivity.
  assert (H32 : (2 ^ 27 < 2 ^ 32)%Z) by reflexivity.
  rewrite to_integer_of_integer by lia.
  replace ((0 <=? n)%Z && (n <? 2 ^ 32)%Z) with true; [reflexivity|].
  symmetry. apply andb_true_intro. split; [apply Z.leb_le | apply Z.ltb_lt]; lia.
Qed.

Lemma fold_exact (len k : nat) :
  (Z.of_nat k + Z.of_nat len <= 2 ^ 27)%Z ->
  fold_left (fun prev cur => prev + cur)
            (map (fun num => num + 1)
                 (map (fun k => of_integer (Z.of_nat k)) (seq k len)))
            (of_integer (tri (Z.of_nat k)))
  = of_integer (tri (Z.of_nat k + Z.of_nat len)).
Proof.
  revert k. induction len as [| len IH]; intros k Hk.
  - cbn [seq map fold_left]. f_equal. f_equal. lia.
  - cbn [seq map fold_left].
    rewrite succ_int by lia. rewrite tri_step_int by lia.
    replace (Z.of_nat k + 1)%Z with (Z.of_nat (S k)) by lia.
    rewrite IH by lia. f_equal. f_equal. lia.
Qed.

Lemma sum_to_n_a_exact (n : Z) :
  (0 <= n <= 2 ^ 27)%Z ->
  sum_to_n_a (of_integer n) = Some (of_integer (tri n)).
Proof.
  intros Hn. unfold sum_to_n_a. rewrite Array_keys_exact by exact Hn.
  f_equal. change 0 with (of_integer (tri (Z.of_nat 0))).
  rewrite fold_exact by (cbn; lia). f_equal. f_equal. cbn. lia.
Qed.

(** C9, as stated, fails: at [n = 134217729 = 2^27 + 1] the sum
    [n * (n + 1) / 2 = 9007199456067585] is odd and above [2^53], so no
    number holds it; [sum_to_n_c] returns 9007199456067584. *)
Lemma sum_to_n_c_inexact :
  to_integer (sum_to_n_c (of_integer 134217729)) = Some 9007199456067584%Z
  /\ tri 134217729 = 9007199456067585%Z
  /\ to_integer (sum_to_n_c (of_integer 134217729)) <> Some (tri 134217729).
Proof.
  split; [vm_compute; reflexivity|]. split; [vm_compute; reflexivity|].
  vm_compute. discriminate.
Qed.

(** C9, amended: for every integer [n] with [0 <= n <= 2^27 = 134217728]
    the three implementations return the same number, which holds exactly
    the sum [n * (n + 1) / 2]; [sum_to_n_b] leaves its loop after [n + 1]
    tests. *)
Theorem sum_to_n_equivalent (n : Z) (fuel : nat) :
  (0 <= n <= 2 ^ 27)%Z -> (Z.to_nat n < fuel)%nat ->
  sum_to_n_a (of_integer n) = Some (of_integer (tri n))
  /\ sum_to_n_b fuel (of_integer n) = Some (of_integer (tri n))
  /\ sum_to_n_c (of_integer n) = of_integer (tri n)
  /\ to_integer (of_integer n) = Some n
  /\ to_integer (of_integer (tri n)) = Some (tri n).
Proof.
  intros Hn Hf.
  split; [now apply sum_to_n_a_exact|].
  split; [now apply sum_to_n_b_exact|].
  split; [now apply sum_to_n_c_exact|].
  assert (H53 : (2 ^ 27 < 2 ^ 53)%Z) by reflexivity.
  split; [apply to_integer_of_integer; lia|].
  pose proof (tri_nonneg n ltac:(lia)) as Hnn.
  destruct (tri n) as [| p | p] eqn:Hp; try lia; [reflexivity|].
  pose proof (tri_representable n p Hn Hp) as Hr.
  apply to_integer_of_integer_pos; [exact Hr|].
  apply (int_exp_le_971 p 54); [|lia].
  rewrite <- Hp. pose proof (tri_double n).
  change (2 ^ 27)%Z with 134217728%Z in Hn.
  change (2 ^ 54)%Z with 18014398509481984%Z. nia.
Qed.

Lemma sum_to_n_equivalent_witness :
  sum_to_n_a 100 = Some 5050
  /\ sum_to_n_b 101 100 = Some 5050
  /\ sum_to_n_c 100 = 5050
  /\ to_integer 100 = Some 100%Z
  /\ to_integer 5050 = Some 5050%Z.
Proof.
  apply (sum_to_n_equivalent 100 101).
  - split; [discriminate | discriminate].
  - apply Nat.ltb_lt. reflexivity.
Defined.

End SumToNFacts.

(** * More on the two reductions *)

Module ReductionMore.
Import Swap ReductionFacts.

Lemma time_gt_none_r (a : TimeValue) : time_gt a None = false.
Proof. now destruct a. Qed.

Lemma time_gt_step (x y r : TimeValue) :
  time_gt y r = true -> time_gt x r = false -> time_gt x y = false.
Proof.
  destruct x as [x |], y as [y |], r as [r |]; cbn; try discriminate; auto.
  intros H1 H2. apply Z.ltb_lt in H1. apply Z.ltb_ge in H2. apply Z.ltb_ge. lia.
Qed.

Lemma existsb_keys (V : Type) (k : string) (m : JsMap.t V) :
  existsb (String.eqb k) (JsMap.keys m)
  = match JsMap.get k m with Some _ => true | None => false end.
Proof.
  induction m as [| [k' v] m IH]; cbn; [reflexivity|].
  destruct (String.eqb k k'); [reflexivity | exact IH].
Qed.

Section WithEnvironment.
Variable getTime : string -> TimeValue.
Variable localeCompare : string -> string -> Z.

Abbreviation T r := (getTime (date r)).
Abbreviation byLatest := (byLatestPerCurrency getTime).
Abbreviation getLatest := (Converter.getLatestPrices getTime localeCompare).

Lemma latestMap_snoc (rows : list PriceRow) (y : PriceRow) :
  latestMap getTime (rows ++ [y]) = latestStep getTime (latestMap getTime rows) y.
Proof. unfold latestMap. now rewrite fold_left_app. Qed.

(** X1: for every input, also with dates that do not parse, each currency
    of the input has an entry in the map, the entry is an input row of that
    currency, and no row of that currency is strictly newer than it. *)
Theorem latest_is_maximal (rows : list PriceRow) (x : PriceRow) :
  In x rows ->
  exists r, JsMap.get (currency x) (latestMap getTime rows) = Some r
            /\ In r rows /\ currency r = currency x
            /\ time_gt (T x) (T r) = false.
Proof.
  induction rows as [| y rows IH] using rev_ind; [intros []|].
  intros Hx. rewrite latestMap_snoc. unfold latestStep.
  set (m := latestMap getTime rows) in *.
  assert (Hl : forall z, In z rows -> In z (rows ++ [y])).
  { intros z Hz. apply in_or_app. now left. }
  assert (Hy : In y (rows ++ [y])).
  { apply in_or_app. right. now left. }
  apply in_app_or in Hx as [Hx | [-> | []]].
  - destruct (IH Hx) as [r [Hget [Hin [Hc Hgt]]]].
    destruct (String.eqb_spec (currency y) (currency x)) as [E | Hne].
    + rewrite E, Hget. destruct (time_gt (T y) (T r)) eqn:Hyr.
      * exists y. rewrite JsMapFacts.get_set_same.
        split; [reflexivity|]. split; [exact Hy|]. split; [exact E|].
        eapply time_gt_step; eauto.
      * exists r. auto.
    + exists r. split; [| auto].
      destruct (JsMap.get (currency y) m) as [p |];
        [destruct (time_gt (T y) (T p)) |];
        rewrite ?JsMapFacts.get_set_other by exact Hne; exact Hget.
  - destruct (JsMap.get (currency x) m) as [p |] eqn:Hp.
    + destruct (time_gt (T x) (T p)) eqn:Hxp.
      * exists x. rewrite JsMapFacts.get_set_same.
        auto using time_gt_irrefl.
      * exists p. apply JsMapFacts.get_Some_In in Hp as Hin.
        split; [exact Hp|]. split; [| split].
        -- apply Hl. eapply latestMap_In; eauto.
        -- eapply latestMap_keyed; eauto.
        -- exact Hxp.
    + exists x. rewrite JsMapFacts.get_set_same.
      auto using time_gt_irrefl.
Qed.

(** X2: a row whose date does not parse and which is the first row of its
    currency is never replaced, whatever rows of that currency follow: both
    outputs show it for that currency, when its price passes. *)
Theorem unparsable_first_row_sticks (l1 l2 : list PriceRow) (r : PriceRow) :
  getTime (date r) = None ->
  (forall x, In x l1 -> currency x <> currency r) ->
  let rows := l1 ++ r :: l2 in
  JsMap.get (currency r) (latestMap getTime rows) = Some r
  /\ (forall q, In q (byLatest rows) -> symbol q = currency r ->
                q = toTokenMeta r)
  /\ (usablePrice r = true -> In (toTokenMeta r) (byLatest rows))
  /\ (forall t, In t (getLatest rows) -> currency t = currency r -> t = r)
  /\ (JsNumber.gt0 (price r) = true -> In r (getLatest rows)).
Proof.
  intros Hnone Hfirst rows.
  assert (Hget : JsMap.get (currency r) (latestMap getTime rows) = Some r).
  { apply latestMap_selects.
    - intros x Hx Hc. now destruct (Hfirst x Hx).
    - intros x _ _. rewrite Hnone. apply time_gt_none_r. }
  split; [exact Hget|]. now apply PriceTable.selected_outputs.
Qed.

(** X3: when the newest row of a currency has a price that fails the
    filter, the output has no quote for that currency, even though older
    rows of it had usable prices. *)
Theorem unusable_newest_hides_currency (l1 l2 : list PriceRow) (r : PriceRow) :
  (forall x, In x (l1 ++ l2) -> currency x = currency r ->
             time_gt (T r) (T x) = true) ->
  let rows := l1 ++ r :: l2 in
  (usablePrice r = false ->
   forall q, In q (byLatest rows) -> symbol q <> currency r)
  /\ (JsNumber.gt0 (price r) = false ->
      forall t, In t (getLatest rows) -> currency t <> currency r).
Proof.
  intros Hold rows.
  apply PriceTable.unusable_latest_omitted.
  apply latestMap_selects.
  - intros x Hx. apply Hold, in_or_app. now left.
  - intros x Hx Hc. apply time_gt_asym, Hold; [| exact Hc].
    apply in_or_app. now right.
Qed.

Lemma keys_step (m : JsMap.t PriceRow) (row : PriceRow) :
  JsMap.keys (latestStep getTime m row)
  = if existsb (String.eqb (currency row)) (JsMap.keys m)
    then JsMap.keys m else JsMap.keys m ++ [currency row].
Proof.
  rewrite existsb_keys. unfold latestStep.
  destruct (JsMap.get (currency row) m) as [p |] eqn:E.
  - destruct (time_gt (T row) (T p)); [| reflexivity].
    now rewrite JsMapFacts.keys_set, E.
  - now rewrite JsMapFacts.keys_set, E.
Qed.

Lemma keys_fold (rows : list PriceRow) (m : JsMap.t PriceRow) :
  JsMap.keys (fold_left (latestStep getTime) rows m)
  = fold_left (fun acc k => if existsb (String.eqb k) acc then acc else acc ++ [k])
              (map currency rows) (JsMap.keys m).
Proof.
  revert m. induction rows as [| r rows IH]; intros m; cbn [fold_left map];
    [reflexivity|].
  now rewrite IH, keys_step.
Qed.

Lemma symbols_filter (full m : JsMap.t PriceRow) :
  keyed m ->
  (forall k v, In (k, v) m -> JsMap.get k full = Some v) ->
  map symbol (map toTokenMeta (filter usablePrice (JsMap.values m)))
  = filter (fun c => match JsMap.get c full with
                     | Some r => usablePrice r
                     | None => false
                     end)
           (JsMap.keys m).
Proof.
  unfold JsMap.values, JsMap.keys.
  induction m as [| [k v] m IH]; intros Hkey Hget; cbn [map filter fst snd];
    [reflexivity|].
  rewrite (Hget k v (or_introl eq_refl)).
  assert (Hm : map symbol (map toTokenMeta (filter usablePrice (map snd m)))
               = filter (fun c => match JsMap.get c full with
                                  | Some r => usablePrice r
                                  | None => false
                                  end) (map fst m)).
  { apply IH.
    - intros k' v' H. apply Hkey. now right.
    - intros k' v' H. apply Hget. now right. }
  destruct (usablePrice v); cbn [map]; rewrite Hm; [| reflexivity].
  f_equal. apply (Hkey k v). now left.
Qed.

(** X4: the map lists the currencies in the order of their first
    appearance in the input, and [byLatestPerCurrency] returns its quotes
    in that order, leaving out the currencies whose row fails the filter. *)
Theorem output_in_first_appearance_order (rows : list PriceRow) :
  JsMap.keys (latestMap getTime rows) = firstSeen (map currency rows)
  /\ map symbol (byLatest rows)
     = filter (fun c => match JsMap.get c (latestMap getTime rows) with
                        | Some r => usablePrice r
                        | None => false
                        end)
              (firstSeen (map currency rows)).
Proof.
  assert (Hk : JsMap.keys (latestMap getTime rows) = firstSeen (map currency rows)).
  { unfold latestMap, firstSeen. now rewrite keys_fold. }
  split; [exact Hk|]. rewrite <- Hk.
  unfold byLatestPerCurrency. apply symbols_filter.
  - apply latestMap_keyed.
  - intros k v. apply JsMapFacts.In_get, latestMap_NoDup.
Qed.

(** X6: the quotes of [byLatestPerCurrency] are exactly the rows of
    [getLatestPrices] whose price is finite. *)
Theorem byLatest_is_finite_part_of_getLatest (rows : list PriceRow) (t : PriceRow) :
  In (toTokenMeta t) (byLatest rows)
  <-> In t (getLatest rows) /\ JsNumber.isFinite (price t) = true.
Proof.
  rewrite PriceTable.byLatest_In, PriceTable.getLatest_In. split.
  - intros [r [E [Hu Hin]]].
    assert (r = t) as ->.
    { destruct r, t. cbn in E. now injection E as -> -> ->. }
    unfold usablePrice in Hu. apply andb_prop in Hu as [Hf Hg]. auto.
  - intros [[Hg Hin] Hf]. exists t. unfold usablePrice.
    rewrite Hf, Hg. auto.
Qed.

End WithEnvironment.

Lemma latest_is_maximal_witness :
  let old := {| currency := "ETH"; date := "2024-01-01"; price := 3000 |} in
  let new := {| currency := "ETH"; date := "2024-01-02"; price := 3100 |} in
  let rows := [new; old] in
  exists r, JsMap.get "ETH" (latestMap Sample.getTime rows) = Some r
            /\ In r rows /\ currency r = "ETH"%string
            /\ time_gt (Sample.getTime (date old)) (Sample.getTime (date r))
               = false.
Proof.
  intros old new rows.
  apply (latest_is_maximal Sample.getTime rows old).
  right. left. reflexivity.
Defined.

Lemma unparsable_first_row_sticks_witness :
  let u := {| currency := "USDC"; date := "2024-01-01"; price := 1 |} in
  let r := {| currency := "ETH"; date := "soon"; price := 3000 |} in
  let later := {| currency := "ETH"; date := "2024-01-02"; price := 3100 |} in
  let rows := [u; r; later] in
  JsMap.get "ETH" (latestMap Sample.getTime rows) = Some r
  /\ (forall q, In q (byLatestPerCurrency Sample.getTime rows) ->
                symbol q = "ETH"%string -> q = toTokenMeta r)
  /\ (usablePrice r = true ->
      In (toTokenMeta r) (byLatestPerCurrency Sample.getTime rows))
  /\ (forall t,
        In t (Converter.getLatestPrices Sample.getTime Sample.localeCompare rows) ->
        currency t = "ETH"%string -> t = r)
  /\ (JsNumber.gt0 (price r) = true ->
      In r (Converter.getLatestPrices Sample.getTime Sample.localeCompare rows)).
Proof.
  intros u r later rows.
  apply (unparsable_first_row_sticks Sample.getTime Sample.localeCompare
                                     [u] [later] r).
  - reflexivity.
  - intros x [<- | []]. discriminate.
Defined.

Lemma unusable_newest_hides_currency_witness :
  let old := {| currency := "ETH"; date := "2024-01-01"; price := 3000 |} in
  let r := {| currency := "ETH"; date := "2024-01-02"; price := 0 |} in
  let rows := [old; r] in
  (usablePrice r = false ->
   forall q, In q (byLatestPerCurrency Sample.getTime rows) ->
             symbol q <> "ETH"%string)
  /\ (JsNumber.gt0 (price r) = false ->
      forall t,
        In t (Converter.getLatestPrices Sample.getTime Sample.localeCompare rows) ->
        currency t <> "ETH"%string).
Proof.
  intros old r rows.
  apply (unusable_newest_hides_currency Sample.getTime Sample.localeCompare
                                        [old] [] r).
  intros x [<- | []] _. reflexivity.
Defined.

End ReductionMore.

(** * Sorted outputs and the token lookup of the swap form *)

Module SortedFacts.
Import Swap.

Section Insertion.
Variable A : Type.
Variable cmp : A -> A -> Z.
Variable P : A -> Prop.
Hypothesis total : forall a b, P a -> P b -> (cmp a b <= 0 \/ cmp b a <= 0)%Z.
Hypothesis trans : forall a b c, P a -> P b -> P c ->
                                 (cmp a b <= 0)%Z -> (cmp b c <= 0)%Z ->
                                 (cmp a c <= 0)%Z.

Abbreviation le := (fun a b => (cmp a b <= 0)%Z).

Lemma insert_Forall (Q : A -> Prop) (x : A) (l : list A) :
  Q x -> Forall Q l -> Forall Q (JsArray.insert cmp x l).
Proof.
  intros Hx Hl. eapply Permutation_Forall.
  - symmetry. apply JsArrayFacts.insert_perm.
  - now constructor.
Qed.

Lemma insert_sorted (x : A) (l : list A) :
  P x -> Forall P l -> StronglySorted le l ->
  StronglySorted le (JsArray.insert cmp x l).
Proof.
  intros Hx Hl Hs. induction Hs as [| y l Hs IH Hy]; cbn.
  - repeat constructor.
  - inversion Hl as [| ? ? Py Pl]; subst.
    destruct (Z.leb_spec (cmp x y) 0) as [Hle | Hgt].
    + constructor; [now constructor |].
      constructor; [exact Hle |].
      rewrite Forall_forall in *. intros z Hz.
      apply (trans x y z); auto.
    + constructor; [now apply IH |].
      apply insert_Forall; [| exact Hy].
      destruct (total x y Hx Py) as [H | H]; [lia | exact H].
Qed.

Lemma sort_sorted (l : list A) :
  Forall P l -> StronglySorted le (JsArray.sort cmp l).
Proof.
  induction l as [| x l IH]; intros Hl; cbn; [constructor|].
  inversion Hl as [| ? ? Px Pl]; subst.
  apply insert_sorted; auto.
  eapply Permutation_Forall; [symmetry; apply JsArrayFacts.sort_perm | exact Pl].
Qed.

(** A stable sort keeps, among the elements it holds equal, the order of the
    input: the elements of any class closed under "compares equal or
    before" come out as they went in. *)
Lemma insert_filter (keep : A -> bool) (x : A) (l : list A) :
  (forall y, In y l -> keep x = true -> keep y = true -> (cmp x y <= 0)%Z) ->
  filter keep (JsArray.insert cmp x l) = filter keep (x :: l).
Proof.
  induction l as [| y l IH]; intros H; cbn [JsArray.insert]; [reflexivity|].
  destruct (Z.leb_spec (cmp x y) 0) as [Hle | Hgt]; [reflexivity|].
  assert (Hxy : keep x = true -> keep y = true -> False).
  { intros Kx Ky. specialize (H y (or_introl eq_refl) Kx Ky). lia. }
  cbn [filter]. rewrite IH by (intros z Hz; apply H; now right).
  cbn [filter].
  destruct (keep x) eqn:Kx, (keep y) eqn:Ky; try reflexivity.
  exfalso. now apply Hxy.
Qed.

Lemma sort_filter (keep : A -> bool) (l : list A) :
  (forall x y, keep x = true -> keep y = true -> (cmp x y <= 0)%Z) ->
  filter keep (JsArray.sort cmp l) = filter keep l.
Proof.
  intros H. induction l as [| x l IH]; cbn [JsArray.sort fold_right];
    [reflexivity|].
  change (fold_right (JsArray.insert cmp) [] l) with (JsArray.sort cmp l).
  rewrite insert_filter by (intros; now apply H).
  cbn [filter]. now rewrite IH.
Qed.

End Insertion.

Lemma sample_compare_total (a b : string) :
  (Sample.localeCompare a b <= 0 \/ Sample.localeCompare b a <= 0)%Z.
Proof.
  unfold Sample.localeCompare. rewrite (String.compare_antisym a b).
  destruct (String.compare b a); cbn; lia.
Qed.

Lemma sample_compare_trans (a b c : string) :
  (Sample.localeCompare a b <= 0)%Z -> (Sample.localeCompare b c <= 0)%Z ->
  (Sample.localeCompare a c <= 0)%Z.
Proof.
  unfold Sample.localeCompare.
  destruct (String.compare a b) eqn:Hab; try lia;
    destruct (String.compare b c) eqn:Hbc; try lia; intros _ _.
  - apply OrderedTypeEx.String_as_OT.cmp_eq in Hab.
    apply OrderedTypeEx.String_as_OT.cmp_eq in Hbc. rewrite Hab, Hbc.
    pose proof (proj2 (OrderedTypeEx.String_as_OT.cmp_eq c c) eq_refl) as H.
    unfold OrderedTypeEx.String_as_OT.cmp in H. rewrite H. lia.
  - apply OrderedTypeEx.String_as_OT.cmp_eq in Hab. rewrite Hab, Hbc. lia.
  - apply OrderedTypeEx.String_as_OT.cmp_eq in Hbc. rewrite <- Hbc, Hab. lia.
  - apply OrderedTypeEx.String_as_OT.cmp_lt in Hab, Hbc.
    pose proof (OrderedTypeEx.String_as_OT.lt_trans _ _ _ Hab Hbc) as H.
    apply OrderedTypeEx.String_as_OT.cmp_lt in H.
    unfold OrderedTypeEx.String_as_OT.cmp in H. rewrite H. lia.
Qed.

Section Outputs.
Variable getTime : string -> TimeValue.
Variable localeCompare : string -> string -> Z.

(** X5: when [localeCompare] orders the strings (any two are comparable,
    and the order is transitive), [getLatestPrices] returns its rows in
    non-decreasing order of currency, and so are the tokens the swap form
    keeps. *)
Theorem outputs_sorted_by_currency (data : list PriceRow) :
  (forall a b, (localeCompare a b <= 0 \/ localeCompare b a <= 0)%Z) ->
  (forall a b c, (localeCompare a b <= 0)%Z -> (localeCompare b c <= 0)%Z ->
                 (localeCompare a c <= 0)%Z) ->
  StronglySorted
    (fun a b => (localeCompare (Converter.currency a) (Converter.currency b) <= 0)%Z)
    (Converter.getLatestPrices getTime localeCompare data)
  /\ StronglySorted
       (fun a b => (localeCompare (symbol a) (symbol b) <= 0)%Z)
       (SwapForm.loadTokens getTime localeCompare data).
Proof.
  intros Htotal Htrans. split.
  - unfold Converter.getLatestPrices.
    apply (sort_sorted _
             (fun a b => localeCompare (Converter.currency a) (Converter.currency b))
             (fun _ => True)); eauto.
    apply Forall_forall. auto.
  - unfold SwapForm.loadTokens.
    apply (sort_sorted _ (fun a b => localeCompare (symbol a) (symbol b))
                       (fun _ => True)); eauto.
    apply Forall_forall. auto.
Qed.

(** The lookup of the swap form, read off the map of the reduction. *)
Lemma findToken_map_entry (raw : list PriceRow) (sym : string) (q : TokenMeta) :
  findToken (SwapForm.loadTokens getTime localeCompare raw) sym = Some q
  <-> exists r, JsMap.get sym (latestMap getTime raw) = Some r
                /\ usablePrice r = true /\ q = toTokenMeta r.
Proof.
  unfold findToken, SwapForm.loadTokens.
  assert (Hin : forall q', In q' (JsArray.sort
                                    (fun a b => localeCompare (symbol a) (symbol b))
                                    (byLatestPerCurrency getTime raw))
                           -> symbol q' = sym ->
                           exists r, JsMap.get sym (latestMap getTime raw) = Some r
                                     /\ usablePrice r = true /\ q' = toTokenMeta r).
  { intros q' Hq Hs. apply JsArrayFacts.sort_In in Hq.
    apply PriceTable.byLatest_In in Hq as [r [-> [Hu Hv]]].
    exists r. split; [| auto]. cbn in Hs. subst sym.
    unfold JsMap.values in Hv. apply in_map_iff in Hv as [[k v] [E Hkv]].
    cbn in E. subst v.
    pose proof (ReductionFacts.latestMap_keyed _ _ _ _ Hkv) as Hk. subst k.
    apply JsMapFacts.In_get; [apply ReductionFacts.latestMap_NoDup | exact Hkv]. }
  split.
  - intros Hf. apply find_some in Hf as [Hq Hs].
    apply String.eqb_eq in Hs. now apply Hin.
  - intros [r [Hget [Hu ->]]].
    destruct (find _ _) as [q' |] eqn:Hf.
    + apply find_some in Hf as [Hq Hs]. apply String.eqb_eq in Hs.
      destruct (Hin q' Hq Hs) as [r' [Hget' [_ ->]]]. congruence.
    + exfalso.
      assert (Hq : In (toTokenMeta r)
                      (JsArray.sort
                         (fun a b => localeCompare (symbol a) (symbol b))
                         (byLatestPerCurrency getTime raw))).
      { apply JsArrayFacts.sort_In, PriceTable.byLatest_In. exists r.
        split; [reflexivity|]. split; [exact Hu|].
        apply ReductionFacts.latestMap_value.
        pose proof (JsMapFacts.get_Some_In _ _ _ _ Hget) as Hkv.
        pose proof (ReductionFacts.latestMap_keyed _ _ _ _ Hkv) as Hk.
        now rewrite Hk. }
      pose proof (find_none _ _ Hf _ Hq) as Hn. cbn in Hn.
      pose proof (JsMapFacts.get_Some_In _ _ _ _ Hget) as Hkv.
      pose proof (ReductionFacts.latestMap_keyed _ _ _ _ Hkv) as Hk.
      rewrite Hk, String.eqb_refl in Hn. discriminate.
Qed.

(** X7: the swap form finds a token for a symbol exactly when the row that
    the map of the reduction holds for that symbol has a usable price (finite
    and above zero), and the token it finds is made from that row.  In
    particular, when a row of the feed is strictly newer than every other
    row of its currency, the lookup of its currency gives that row's token
    if its price is usable, and nothing otherwise. *)
Theorem token_lookup (raw : list PriceRow) :
  (forall (sym : string) (q : TokenMeta),
      findToken (SwapForm.loadTokens getTime localeCompare raw) sym = Some q
      <-> exists r, JsMap.get sym (latestMap getTime raw) = Some r
                    /\ usablePrice r = true /\ q = toTokenMeta r)
  /\ (forall (l1 l2 : list PriceRow) (r : PriceRow),
         raw = l1 ++ r :: l2 ->
         (forall x, In x (l1 ++ l2) -> currency x = currency r ->
                    time_gt (getTime (date r)) (getTime (date x)) = true) ->
         findToken (SwapForm.loadTokens getTime localeCompare raw) (currency r)
         = if usablePrice r then Some (toTokenMeta r) else None).
Proof.
  split; [intros sym q; apply findToken_map_entry |].
  intros l1 l2 r -> Hnew.
  assert (Hget : JsMap.get (currency r) (latestMap getTime (l1 ++ r :: l2))
                 = Some r).
  { apply ReductionFacts.latestMap_selects.
    - intros x Hx. apply Hnew, in_or_app. now left.
    - intros x Hx Hc. apply ReductionFacts.time_gt_asym, Hnew; [| exact Hc].
      apply in_or_app. now right. }
  destruct (usablePrice r) eqn:Hu.
  - apply findToken_map_entry. exists r. auto.
  - destruct (findToken (SwapForm.loadTokens getTime localeCompare
                                             (l1 ++ r :: l2)) (currency r))
      as [q |] eqn:Hf; [| reflexivity].
    apply findToken_map_entry in Hf as [r' [Hget' [Hu' _]]].
    congruence.
Qed.

End Outputs.

Lemma outputs_sorted_by_currency_witness :
  let data :=
    [ {| currency := "USDC"; date := "2024-01-01"; price := 1 |};
      {| currency := "ETH"; date := "2024-01-02"; price := 3100 |} ] in
  StronglySorted
    (fun a b => (Sample.localeCompare (Converter.currency a)
                                      (Converter.currency b) <= 0)%Z)
    (Converter.getLatestPrices Sample.getTime Sample.localeCompare data)
  /\ StronglySorted
       (fun a b => (Sample.localeCompare (symbol a) (symbol b) <= 0)%Z)
       (SwapForm.loadTokens Sample.getTime Sample.localeCompare data).
Proof.
  intros data.
  apply (outputs_sorted_by_currency Sample.getTime Sample.localeCompare data).
  - exact sample_compare_total.
  - exact sample_compare_trans.
Defined.

Lemma token_lookup_witness :
  let old := {| currency := "ETH"; date := "2024-01-01"; price := 3000 |} in
  let new := {| currency := "ETH"; date := "2024-01-02"; price := 3100 |} in
  let usdc := {| currency := "USDC"; date := "2024-01-01"; price := 1 |} in
  findToken (SwapForm.loadTokens Sample.getTime Sample.localeCompare
                                 [old; new; usdc]) "ETH"
  = Some {| symbol := "ETH"; priceUSD := 3100; updatedAt := "2024-01-02" |}.
Proof.
  intros old new usdc.
  apply (proj2 (token_lookup Sample.getTime Sample.localeCompare
                             [old; new; usdc]) [old] [usdc] new).
  - reflexivity.
  - intros x [<- | [<- | []]] Hc.
    + reflexivity.
    + discriminate Hc.
Defined.

End SortedFacts.

(** * The swap form *)

Module SwapFormFacts.
Import Swap SwapForm.
Local Open Scope float_scope.

Lemma finite_not_le0 (x : float) :
  JsNumber.isFinite x = true -> JsNumber.le0 x = false -> JsNumber.gt0 x = true.
Proof.
  unfold JsNumber.isFinite, JsNumber.le0, JsNumber.gt0, is_finite, is_nan,
    is_infinity.
  rewrite ltb_spec, leb_spec, !eqb_spec, abs_spec,
    JsNumberFacts.Prim2SF_zero, JsNumberFacts.Prim2SF_infinity.
  destruct (Prim2SF x) as [s | s | | s m e]; cbn; try discriminate.
  - now destruct s.
  - now destruct s.
Qed.

Section WithBuiltins.
Variable Number : string -> float.
Variable inherited : string -> bool.

Lemma object_set_plain (o : JsObject.t) (k : string) (v : float) :
  k <> "__proto__"%string -> JsObject.set o k v = JsMap.set k v o.
Proof.
  intros Hk. unfold JsObject.set.
  destruct (JsMap.get k o); [reflexivity|].
  destruct (String.eqb_spec k "__proto__"); [contradiction | reflexivity].
Qed.

Lemma object_get_set_same (o : JsObject.t) (k : string) (v : float) :
  k <> "__proto__"%string ->
  JsObject.get inherited (JsObject.set o k v) k = JsObject.Own v.
Proof.
  intros Hk. rewrite object_set_plain by exact Hk.
  unfold JsObject.get. now rewrite JsMapFacts.get_set_same.
Qed.

Lemma object_get_set_other (o : JsObject.t) (k k' : string) (v : float) :
  k <> k' ->
  JsObject.get inherited (JsObject.set o k v) k' = JsObject.get inherited o k'.
Proof.
  intros Hne. unfold JsObject.get, JsObject.set.
  destruct (JsMap.get k o); [| destruct (String.eqb k "__proto__")];
    rewrite ?JsMapFacts.get_set_other by exact Hne; reflexivity.
Qed.

(** What an enabled Swap button guarantees. *)
Lemma canSwap_inv (f : Form) :
  canSwap Number inherited f = true ->
  fromSymbol f <> toSymbol f
  /\ amountInNumOf Number f = Number (amountIn f)
  /\ JsNumber.isFinite (Number (amountIn f)) = true
  /\ JsNumber.gt0 (Number (amountIn f)) = true.
Proof.
  unfold canSwap. intros H.
  repeat (apply andb_prop in H as [H ?]).
  assert (Hne : fromSymbol f <> toSymbol f).
  { unfold sameToken in *. now destruct (String.eqb_spec (fromSymbol f) (toSymbol f)). }
  unfold amountInvalid in *.
  destruct (JsNumber.isFinite (amountInNumOf Number f)) eqn:Hf; [| discriminate].
  destruct (JsNumber.le0 (amountInNumOf Number f)) eqn:Hl; [discriminate|].
  pose proof (finite_not_le0 _ Hf Hl) as Hg.
  assert (E : amountInNumOf Number f = Number (amountIn f)).
  { unfold amountInNumOf, amountInNum, JsNumber.or_zero in *.
    destruct (JsNumber.truthy (Number (amountIn f))); [reflexivity|].
    discriminate Hg. }
  rewrite <- E. auto.
Qed.

(** X8: [submit] does nothing while the button is disabled; otherwise the
    amount typed, which is then a finite number above zero, is taken from
    the balance of the source token (a missing balance counting as 0), the
    balance of the target token grows by [Math.max(minReceived, 0)], no
    other balance changes, and the amount field is emptied. *)
Theorem submit_moves_two_balances (f : Form) :
  (canSwap Number inherited f = false -> submit Number inherited f = Some f)
  /\ (canSwap Number inherited f = true ->
      inherited (fromSymbol f) = false -> inherited (toSymbol f) = false ->
      fromSymbol f <> "__proto__"%string -> toSymbol f <> "__proto__"%string ->
      exists f',
        submit Number inherited f = Some f'
        /\ JsObject.get inherited (balances f') (fromSymbol f)
           = JsObject.Own (fromBal inherited f - Number (amountIn f))
        /\ JsObject.get inherited (balances f') (toSymbol f)
           = JsObject.Own
               (JsObject.orNumber 0
                  (JsObject.get inherited (balances f) (toSymbol f))
                + JsMath.max (q_minReceived (quote Number f)) 0)
        /\ (forall k, k <> fromSymbol f -> k <> toSymbol f ->
                      JsObject.get inherited (balances f') k
                      = JsObject.get inherited (balances f) k)
        /\ amountIn f' = ""%string
        /\ JsNumber.isFinite (Number (amountIn f)) = true
        /\ JsNumber.gt0 (Number (amountIn f)) = true).
Proof.
  split.
  - intros H. unfold submit. now rewrite H.
  - intros H Hif Hit Hpf Hpt.
    destruct (canSwap_inv f H) as [Hne [Ha [Hfin Hpos]]].
    unfold submit. rewrite H. cbn [negb].
    unfold nextBalances. rewrite Ha.
    rewrite (object_get_set_other _ _ (toSymbol f)) by exact Hne.
    assert (Hown : JsObject.get inherited (balances f) (toSymbol f)
                   <> JsObject.Inherited).
    { unfold JsObject.get. destruct (JsMap.get (toSymbol f) (balances f));
        [discriminate |].
      rewrite Hit. destruct (String.eqb_spec (toSymbol f) "__proto__");
        [contradiction | discriminate]. }
    destruct (JsObject.get inherited (balances f) (toSymbol f)) as [v | |] eqn:Hto;
      [| contradiction |];
      (eexists; split; [reflexivity |];
       cbn [balances amountIn setAmountIn setBalances];
       split; [| split; [| split; [| split]]]; auto;
       [ rewrite object_get_set_other by congruence;
         now rewrite object_get_set_same
       | now rewrite object_get_set_same by exact Hpt
       | intros k Hkf Hkt;
         rewrite !object_get_set_other by congruence; reflexivity ]).
Qed.

End WithBuiltins.

Lemma submit_moves_two_balances_witness :
  let f :=
    {| tokens := [Sample.eth; Sample.usdc]; loading := false; error := None;
       fromSymbol := "USDC"; toSymbol := "ETH"; amountIn := "2";
       slippage := defaultSlippage; feeBps := defaultFeeBps;
       balances := DEFAULT_BALANCES |} in
  let inherited := fun _ : string => false in
  exists f',
    submit Sample.parseFloat inherited f = Some f'
    /\ JsObject.get inherited (balances f') "USDC" = JsObject.Own (2500 - 2)
    /\ JsObject.get inherited (balances f') "ETH"
       = JsObject.Own
           (0.75 + JsMath.max (q_minReceived (quote Sample.parseFloat f)) 0)
    /\ (forall k, k <> "USDC"%string -> k <> "ETH"%string ->
                  JsObject.get inherited (balances f') k
                  = JsObject.get inherited (balances f) k)
    /\ amountIn f' = ""%string
    /\ JsNumber.isFinite 2 = true
    /\ JsNumber.gt0 2 = true.
Proof.
  intros f inherited.
  apply (proj2 (submit_moves_two_balances Sample.parseFloat inherited f));
    try reflexivity; discriminate.
Defined.

(** X9: with no fee and no slippage, and an output amount that is finite
    and above zero, the fee is 0 and the minimum received is the output
    amount itself. *)
Theorem no_fee_no_slippage (fromToken toToken : option TokenMeta)
        (amountInNum : float) :
  let q := derive fromToken toToken amountInNum 0 0 in
  JsNumber.isFinite (q_amountOut q) = true ->
  JsNumber.gt0 (q_amountOut q) = true ->
  q_platformFee q = 0 /\ q_minReceived q = q_amountOut q.
Proof.
  cbv zeta. cbn [derive q_amountOut q_platformFee q_minReceived].
  set (out := amountOut amountInNum (rate fromToken toToken)).
  intros Hf Hg.
  destruct (JsNumberFacts.finite_pos_inv _ Hf Hg) as [m [e Hout]].
  unfold platformFee, minReceived.
  change (0 / 10000) with 0. change (1 - 0 / 100) with 1.
  assert (Hfee : out * 0 = 0).
  { apply Prim2SF_inj.
    now rewrite mul_spec, Hout, JsNumberFacts.Prim2SF_zero. }
  rewrite Hfee, JsNumberFacts.mul_one_r. split; [reflexivity|].
  apply Prim2SF_inj.
  now rewrite sub_spec, Hout, JsNumberFacts.Prim2SF_zero.
Qed.

Lemma no_fee_no_slippage_witness :
  let q := derive (Some Sample.eth) (Some Sample.usdc) 2 0 0 in
  q_platformFee q = 0 /\ q_minReceived q = q_amountOut q.
Proof.
  apply (no_fee_no_slippage (Some Sample.eth) (Some Sample.usdc) 2);
    reflexivity.
Defined.

End SwapFormFacts.

(** * The converter: loading prices, converting, history *)

Module ConverterFacts.
Import Converter ConverterLoad.
Local Open Scope float_scope.

Lemma firstn_app_firstn (A : Type) (n : nat) (l l' : list A) :
  firstn n (l ++ firstn n l') = firstn n (l ++ l').
Proof.
  rewrite !firstn_app, firstn_firstn. do 2 f_equal. lia.
Qed.

(** Filtering keeps distinct keys distinct. *)
Lemma filter_keeps_distinct (A B : Type) (key : A -> B) (keep : A -> bool) :
  forall l : list A, NoDup (map key l) -> NoDup (map key (filter keep l)).
Proof.
  intros l. induction l as [| x l IH]; cbn; intros Hd; [exact Hd|].
  apply NoDup_cons_iff in Hd as [Hx Hl].
  destruct (keep x); cbn; [apply NoDup_cons |]; auto.
  intros Hin. apply Hx.
  apply in_map_iff in Hin as [y [Hy Hin]].
  apply filter_In in Hin as [Hin _].
  rewrite <- Hy. now apply in_map.
Qed.

Lemma saves_from_cut (cs : list ConversionHistory) (st : State)
      (X : list ConversionHistory) :
  st_history st = firstn 10 X ->
  st_history (fold_left (fun s c => saveToHistory c s) cs st)
  = firstn 10 (rev cs ++ X).
Proof.
  revert st X. induction cs as [| c cs IH]; intros st X HX; cbn [fold_left rev].
  - cbn [app]. exact HX.
  - rewrite <- app_assoc. cbn [app]. apply IH.
    unfold saveToHistory, newHistory, JsArray.slice0, setItem, setHistory.
    cbn [st_history]. rewrite HX.
    apply (firstn_app_firstn _ 10%nat [c] X).
Qed.

(** X10: after one save and any number of further saves the history is
    the list of the saved conversions, newest first, followed by the
    earlier history, cut to its first 10 entries (the 10 most recent). *)
Theorem history_is_ten_most_recent (c : ConversionHistory)
        (cs : list ConversionHistory) (st : State) :
  st_history (fold_left (fun s c => saveToHistory c s) (c :: cs) st)
  = firstn 10 (rev (c :: cs) ++ st_history st).
Proof.
  cbn [fold_left rev]. rewrite <- app_assoc. cbn [app].
  apply saves_from_cut. reflexivity.
Qed.

Section WithEnvironment.
Variable getTime : string -> TimeValue.
Variable localeCompare : string -> string -> Z.
Variable parseFloat : string -> float.

Abbreviation getLatest := (getLatestPrices getTime localeCompare).
Abbreviation loaded := (pricesLoaded getTime localeCompare).

Lemma getLatest_NoDup (data : list Token) :
  NoDup (map currency (getLatest data)).
Proof.
  unfold getLatestPrices.
  eapply Permutation_NoDup.
  { apply Permutation_map. symmetry. apply JsArrayFacts.sort_perm. }
  apply filter_keeps_distinct.
  change (currencyMapOf getTime data) with (Swap.latestMap getTime data).
  unfold currency. rewrite ReductionFacts.latestMap_currencies.
  apply ReductionFacts.latestMap_NoDup.
Qed.

(** X11: after the prices are loaded the token list is the reduced feed;
    with no token the selected currencies stay as they were; with one
    token both selections are its currency, so the Convert button is
    disabled whatever the amount; with two or more, the source is the
    first currency and the target the second (when its name is not
    empty), and the two differ. *)
Theorem loaded_defaults (data : list Token) (st : State) :
  let st' := loaded data st in
  st_tokens st' = getLatest data
  /\ match getLatest data with
     | [] => st_fromCurrency st' = st_fromCurrency st
             /\ st_toCurrency st' = st_toCurrency st
     | [t0] => st_fromCurrency st' = currency t0
               /\ st_toCurrency st' = currency t0
               /\ convertDisabled st' = true
     | t0 :: t1 :: _ =>
         st_fromCurrency st' = currency t0
         /\ (nonEmpty (currency t1) = true ->
             st_toCurrency st' = currency t1
             /\ st_fromCurrency st' <> st_toCurrency st')
     end.
Proof.
  cbv zeta. unfold pricesLoaded.
  pose proof (getLatest_NoDup data) as Hnd.
  destruct (getLatest data) as [| t0 [| t1 rest]];
    cbn [st_tokens st_fromCurrency st_toCurrency setTokens setFromCurrency
         setToCurrency]; split; auto.
  - split; [reflexivity|]. split; [reflexivity|].
    unfold convertDisabled. cbn [st_fromCurrency st_toCurrency st_amount].
    rewrite String.eqb_refl. now rewrite !orb_true_r.
  - split; [reflexivity|]. intros Hne. rewrite Hne.
    split; [reflexivity|].
    cbn in Hnd. inversion Hnd as [| ? ? Hnotin _]; subst.
    intros E. apply Hnotin. left. now symmetry.
Qed.

(** X12: a click on Convert right after the prices are loaded, with two or
    more tokens whose first two currencies have non-empty names and an
    amount that parses to a number other than 0 and NaN, yields the amount
    times the ratio of the first price to the second. *)
Theorem convert_after_load (now : string) (data : list Token) (st : State)
        (t0 t1 : Token) (rest : list Token) :
  getLatest data = t0 :: t1 :: rest ->
  nonEmpty (currency t0) = true -> nonEmpty (currency t1) = true ->
  JsNumber.truthy (parseFloat (st_amount st)) = true ->
  let st' := convertCurrency parseFloat now (loaded data st) in
  st_result st' = Some (parseFloat (st_amount st) * (price t0 / price t1))
  /\ option_map from (hd_error (st_history st')) = Some (currency t0)
  /\ option_map to (hd_error (st_history st')) = Some (currency t1).
Proof.
  intros Hl H0 H1 Ha.
  pose proof (loaded_tokens_aux := getLatest_NoDup data).
  rewrite Hl in loaded_tokens_aux. cbn in loaded_tokens_aux.
  inversion loaded_tokens_aux as [| ? ? Hnotin _]; subst.
  assert (Hne : String.eqb (currency t0) (currency t1) = false).
  { apply String.eqb_neq. intros E. apply Hnotin. left. now symmetry. }
  set (s1 := loaded data st).
  assert (Hs1 : st_tokens s1 = t0 :: t1 :: rest
                /\ st_fromCurrency s1 = currency t0
                /\ st_toCurrency s1 = currency t1
                /\ st_amount s1 = st_amount st
                /\ st_history s1 = st_history st).
  { unfold s1, pricesLoaded. rewrite Hl, H1. cbn. auto. }
  destruct Hs1 as [Ht [Hf [Hto [Hamt Hh]]]].
  cbv zeta.
  destruct (Conversion.convertCurrency_computes parseFloat now s1 t0 t1)
    as [Hr Hhist].
  - now rewrite Hamt.
  - now rewrite Hf.
  - now rewrite Hto.
  - rewrite Ht, Hf. cbn [find]. now rewrite String.eqb_refl.
  - rewrite Ht, Hto. cbn [find]. now rewrite Hne, String.eqb_refl.
  - rewrite Hr, Hhist, Hamt, Hf, Hto. unfold newHistory, JsArray.slice0.
    cbn. auto.
Qed.

(** X13: [convertCurrency] changes nothing when the amount parses to 0 or
    NaN, when a currency is not selected, or when a selected currency is
    not in the token list. *)
Theorem convertCurrency_guards (now : string) (st : State) :
  JsNumber.truthy (parseFloat (st_amount st)) = false
  \/ st_fromCurrency st = ""%string
  \/ st_toCurrency st = ""%string
  \/ find (fun t => String.eqb (currency t) (st_fromCurrency st))
          (st_tokens st) = None
  \/ find (fun t => String.eqb (currency t) (st_toCurrency st))
          (st_tokens st) = None ->
  convertCurrency parseFloat now st = st.
Proof.
  intros H. unfold convertCurrency.
  destruct (negb (JsNumber.truthy (parseFloat (st_amount st)))
            || negb (nonEmpty (st_fromCurrency st))
            || negb (nonEmpty (st_toCurrency st))) eqn:G; [reflexivity|].
  apply orb_false_elim in G as [G Gt]. apply orb_false_elim in G as [Ga Gf].
  destruct H as [H | [H | [H | [H | H]]]].
  - rewrite H in Ga. discriminate.
  - rewrite H in Gf. discriminate.
  - rewrite H in Gt. discriminate.
  - now rewrite H.
  - rewrite H.
    destruct (find (fun t => String.eqb (currency t) (st_fromCurrency st))
                   (st_tokens st)); reflexivity.
Qed.

End WithEnvironment.

Lemma convert_after_load_witness :
  let data :=
    [ {| Swap.currency := "USDC"; Swap.date := "2024-01-01"; Swap.price := 1 |};
      {| Swap.currency := "ETH"; Swap.date := "2024-01-02"; Swap.price := 3100 |} ] in
  let st :=
    {| st_tokens := []; st_fromCurrency := ""; st_toCurrency := "";
       st_amount := "2"; st_result := None; st_history := [];
       st_sessionStorage := None |} in
  let st' :=
    convertCurrency Sample.parseFloat "now"
      (pricesLoaded Sample.getTime Sample.localeCompare data st) in
  st_result st' = Some (2 * (3100 / 1))
  /\ option_map from (hd_error (st_history st')) = Some "ETH"%string
  /\ option_map to (hd_error (st_history st')) = Some "USDC"%string.
Proof.
  intros data st.
  apply (convert_after_load Sample.getTime Sample.localeCompare
           Sample.parseFloat "now"%string data st
           {| Swap.currency := "ETH"; Swap.date := "2024-01-02"; Swap.price := 3100 |}
           {| Swap.currency := "USDC"; Swap.date := "2024-01-01"; Swap.price := 1 |}
           []); reflexivity.
Defined.

Lemma convertCurrency_guards_witness :
  let st :=
    {| st_tokens := []; st_fromCurrency := "ETH"; st_toCurrency := "USDC";
       st_amount := "abc"; st_result := None; st_history := [];
       st_sessionStorage := None |} in
  convertCurrency Sample.parseFloat "now" st = st.
Proof.
  intros st. apply (convertCurrency_guards Sample.parseFloat "now"%string st).
  left. reflexivity.
Defined.

End ConverterFacts.

(** * The wallet page *)

Module WalletFacts.
Import Wallet.
Local Open Scope float_scope.

(** The priority as an integer, for the five chains of the table. *)
Lemma known_chain_cases (c : string) :
  knownChain c = true ->
  c = "Osmosis"%string \/ c = "Ethereum"%string \/ c = "Arbitrum"%string
  \/ c = "Zilliqa"%string \/ c = "Neo"%string.
Proof.
  unfold knownChain. cbn [JsMap.keys PRIORITY map fst existsb].
  destruct (String.eqb_spec c "Osmosis") as [-> | _]; [intros _; tauto|].
  destruct (String.eqb_spec c "Ethereum") as [-> | _]; [intros _; tauto|].
  destruct (String.eqb_spec c "Arbitrum") as [-> | _]; [intros _; tauto|].
  destruct (String.eqb_spec c "Zilliqa") as [-> | _]; [intros _; tauto|].
  destruct (String.eqb_spec c "Neo") as [-> | _]; [intros _; tauto|].
  cbn. discriminate.
Qed.

Lemma sub_self_sign (p : float) : JsMath.comparatorSign (p - p) = 0%Z.
Proof.
  unfold JsMath.comparatorSign.
  rewrite !ltb_spec, sub_spec, JsNumberFacts.Prim2SF_zero.
  destruct (Prim2SF p) as [s | s | | s m e]; cbn [SF64sub SFsub].
  - now destruct s.
  - now destruct s.
  - reflexivity.
  - rewrite Z.sub_diag. reflexivity.
Qed.

Lemma StronglySorted_weaken (A : Type) (R R' : A -> A -> Prop) (l : list A) :
  (forall a b, In a l -> In b l -> R a b -> R' a b) ->
  StronglySorted R l -> StronglySorted R' l.
Proof.
  intros H Hs. induction Hs as [| x l Hs IH Hx]; constructor.
  - apply IH. intros a b Ha Hb. apply H; now right.
  - rewrite Forall_forall in *. intros y Hy.
    apply H; [now left | now right | now apply Hx].
Qed.

Section WithPrototype.
Variable inherited : string -> bool.

Abbreviation priority b := (getPriority inherited (blockchain b)).
Abbreviation cmp :=
  (fun lhs rhs => JsMath.comparatorSign (byPriority inherited lhs rhs)).

Lemma priority_above_floor (c : string) :
  (-99 <? getPriority inherited c) = knownChain c.
Proof.
  unfold getPriority, JsObject.get, knownChain.
  cbn [JsMap.keys PRIORITY map fst existsb JsMap.get].
  destruct (String.eqb c "Osmosis"); [reflexivity|].
  destruct (String.eqb c "Ethereum"); [reflexivity|].
  destruct (String.eqb c "Arbitrum"); [reflexivity|].
  destruct (String.eqb c "Zilliqa"); [reflexivity|].
  destruct (String.eqb c "Neo"); [reflexivity|].
  now destruct (String.eqb c "__proto__" || inherited c).
Qed.

Lemma shown_spec (b : WalletBalance) :
  shown inherited b = knownChain (blockchain b) && (0 <=? amount b).
Proof. unfold shown. now rewrite priority_above_floor. Qed.

(** X14: the page shows exactly the balances whose chain is one of the five
    of the table and whose amount is [>= 0] (zero included, NaN excluded);
    a chain named like an inherited property of the table is not shown. *)
Theorem sortedBalances_members (balances : list WalletBalance)
        (b : WalletBalance) :
  In b (sortedBalances inherited balances)
  <-> In b balances /\ knownChain (blockchain b) = true
      /\ (0 <=? amount b) = true.
Proof.
  unfold sortedBalances.
  rewrite JsArrayFacts.sort_In, filter_In, shown_spec, andb_true_iff.
  tauto.
Qed.

Lemma cmp_known (a b : WalletBalance) :
  knownChain (blockchain a) = true -> knownChain (blockchain b) = true ->
  ((cmp a b <= 0)%Z <-> (priority b <=? priority a) = true).
Proof.
  intros Ha Hb. unfold byPriority.
  destruct (known_chain_cases _ Ha) as [E | [E | [E | [E | E]]]];
    destruct (known_chain_cases _ Hb) as [F | [F | [F | [F | F]]]];
    rewrite E, F; vm_compute; split; congruence.
Qed.

Lemma leb_known_trans (a b c : WalletBalance) :
  knownChain (blockchain a) = true -> knownChain (blockchain b) = true ->
  knownChain (blockchain c) = true ->
  (priority b <=? priority a) = true -> (priority c <=? priority b) = true ->
  (priority c <=? priority a) = true.
Proof.
  intros Ha Hb Hc.
  destruct (known_chain_cases _ Ha) as [E | [E | [E | [E | E]]]];
    destruct (known_chain_cases _ Hb) as [F | [F | [F | [F | F]]]];
    destruct (known_chain_cases _ Hc) as [G | [G | [G | [G | G]]]];
    rewrite E, F, G; vm_compute; congruence.
Qed.

Lemma leb_known_total (a b : WalletBalance) :
  knownChain (blockchain a) = true -> knownChain (blockchain b) = true ->
  (priority b <=? priority a) = true \/ (priority a <=? priority b) = true.
Proof.
  intros Ha Hb.
  destruct (known_chain_cases _ Ha) as [E | [E | [E | [E | E]]]];
    destruct (known_chain_cases _ Hb) as [F | [F | [F | [F | F]]]];
    rewrite E, F; vm_compute; auto.
Qed.

(** X15: the balances shown are in non-increasing order of priority: a
    balance never stands before one of higher priority. *)
Theorem sortedBalances_by_priority (balances : list WalletBalance) :
  StronglySorted (fun a b => (priority b <=? priority a) = true)
                 (sortedBalances inherited balances).
Proof.
  unfold sortedBalances.
  set (P := fun b : WalletBalance => knownChain (blockchain b) = true).
  assert (HP : Forall P (filter (shown inherited) balances)).
  { apply Forall_forall. intros b Hb. apply filter_In in Hb as [_ Hb].
    rewrite shown_spec in Hb. now apply andb_prop in Hb as [Hb _]. }
  apply StronglySorted_weaken with (R := fun a b => (cmp a b <= 0)%Z).
  - intros a b Ha Hb Hab.
    apply JsArrayFacts.sort_In in Ha, Hb.
    rewrite Forall_forall in HP.
    apply (cmp_known a b (HP a Ha) (HP b Hb)). exact Hab.
  - apply (SortedFacts.sort_sorted _ cmp P); [| | exact HP].
    + intros a b Pa Pb.
      destruct (leb_known_total a b Pa Pb) as [H | H];
        [left; now apply cmp_known | right; now apply cmp_known].
    + intros a b c Pa Pb Pc Hab Hbc.
      apply cmp_known; [assumption | assumption |].
      apply (leb_known_trans a b c Pa Pb Pc);
        [now apply (cmp_known a b) | now apply (cmp_known b c)].
Qed.

(** X16: the sort is stable: balances of one and the same priority (those
    on Zilliqa and Neo, both 20, or several on one chain) keep the order
    they had in the input. *)
Theorem sortedBalances_stable (balances : list WalletBalance) (p : float) :
  filter (fun b => Leibniz.eqb (priority b) p)
         (sortedBalances inherited balances)
  = filter (fun b => Leibniz.eqb (priority b) p)
           (filter (shown inherited) balances).
Proof.
  unfold sortedBalances. apply SortedFacts.sort_filter.
  intros x y Hx Hy.
  apply Leibniz.eqb_spec in Hx, Hy. unfold byPriority.
  rewrite Hx, Hy, sub_self_sign. lia.
Qed.

End WithPrototype.
End WalletFacts.

(** * The three sums outside the integers from 0 to 2^27 *)

Module SumToNMore.
Import JsNumber JsNumberFacts SumToN SumToNFacts.
Local Open Scope Z_scope.

Lemma of_integer_neg_spec (v : positive) :
  Zpos v < 2 ^ 53 ->
  Prim2SF (of_integer (Zneg v)) = S754_finite true (int_man v) (int_exp v).
Proof.
  intros Hv. unfold of_integer. cbn [binary_normalize].
  pose proof (representable_small v Hv) as Hr.
  pose proof (int_exp_le_971 v 53 Hv ltac:(lia)) as He.
  rewrite (binary_round_int true v 0 v Hr He) by (cbn; lia).
  apply Prim2SF_SF2Prim. cbn [valid_binary SpecFloat.valid_binary].
  now apply int_bounded.
Qed.

Lemma to_integer_neg (v : positive) :
  Zpos v < 2 ^ 53 -> to_integer (of_integer (Zneg v)) = Some (Zneg v).
Proof.
  intros Hv. unfold to_integer. rewrite (of_integer_neg_spec v Hv).
  pose proof (int_man_small v Hv) as Hs.
  pose proof (int_exp_small v Hv) as He.
  destruct (int_exp v) as [| p | p] eqn:Hp; try lia.
  - cbn in Hs. f_equal. lia.
  - change (- Zneg p) with (Zpos p) in Hs.
    rewrite Z.land_ones by lia. rewrite Hs, Z.mod_mul by lia.
    cbn [Z.eqb]. rewrite Z.shiftr_div_pow2 by lia.
    rewrite Z.div_mul by lia. reflexivity.
Qed.

Lemma array_length_refused (n : Z) :
  - 2 ^ 53 < n < 2 ^ 53 -> n < 0 \/ 2 ^ 32 <= n ->
  to_integer (of_integer n) = Some n
  /\ Array_keys (of_integer n) = None
  /\ sum_to_n_a (of_integer n) = None.
Proof.
  intros Hb Hn.
  assert (Ht : to_integer (of_integer n) = Some n).
  { destruct n as [| p | p]; [reflexivity | |].
    - apply to_integer_of_integer. lia.
    - apply to_integer_neg. lia. }
  assert (Hk : Array_keys (of_integer n) = None).
  { unfold Array_keys. rewrite Ht.
    destruct Hn as [Hn | Hn].
    - destruct (Z.leb_spec 0 n); [lia | reflexivity].
    - destruct (Z.ltb_spec n (2 ^ 32)); [lia |].
      now rewrite andb_false_r. }
  unfold sum_to_n_a. now rewrite Hk.
Qed.

(** X17: [sum_to_n_a] throws a RangeError for every negative integer and
    for every integer from [2^32] on ([Array(num)] refuses the length),
    here for the integers below [2^53] in absolute value. *)
Theorem sum_to_n_a_range_error (n : Z) :
  - 2 ^ 53 < n < 2 ^ 53 -> n < 0 \/ 2 ^ 32 <= n ->
  to_integer (of_integer n) = Some n
  /\ Array_keys (of_integer n) = None
  /\ sum_to_n_a (of_integer n) = None.
Proof. apply array_length_refused. Qed.

Lemma sum_to_n_a_range_error_witness :
  to_integer (-1)%float = Some (-1)
  /\ Array_keys (-1)%float = None
  /\ sum_to_n_a (-1)%float = None.
Proof.
  apply (sum_to_n_a_range_error (-1)).
  - split; reflexivity.
  - left. reflexivity.
Defined.

Local Open Scope float_scope.

Lemma Prim2SF_2_53 :
  Prim2SF (of_integer (2 ^ 53)) = S754_finite false 4503599627370496 1.
Proof. reflexivity. Qed.

Lemma stuck_at_2_53 : of_integer (2 ^ 53) + 1 = of_integer (2 ^ 53).
Proof. reflexivity. Qed.

Lemma counter_step (k : Z) :
  (1 <= k < 2 ^ 53)%Z -> of_integer k + 1 = of_integer (k + 1).
Proof.
  intros Hk. rewrite <- of_integer_1. apply add_int; try lia.
  intros p Hp.
  destruct (Z.eq_dec (k + 1) (2 ^ 53)) as [E | Hne].
  - rewrite E in Hp. injection Hp as <-. reflexivity.
  - apply representable_small. lia.
Qed.

Lemma leb_below_2_53 (k : Z) (num : float) :
  (1 <= k <= 2 ^ 53)%Z ->
  (of_integer (2 ^ 53) <=? num) = true -> (of_integer k <=? num) = true.
Proof.
  intros Hk H.
  destruct (Z.eq_dec k (2 ^ 53)) as [-> | Hne]; [exact H|].
  rewrite leb_spec in *. rewrite Prim2SF_2_53 in H.
  destruct k as [| p | p]; try lia.
  assert (Hp : (Zpos p < 2 ^ 53)%Z) by lia.
  rewrite (of_integer_small p Hp).
  pose proof (int_exp_small p Hp) as He.
  unfold SFleb in *.
  destruct (Prim2SF num) as [s | s | | s m e]; cbn [SFcompare] in *.
  - discriminate.
  - destruct s; [discriminate | reflexivity].
  - discriminate.
  - destruct s; [discriminate|].
    destruct (Z.compare_spec 1 e) as [E | E | E]; try discriminate.
    + subst e. destruct (Z.compare_spec (int_exp p) 1); (reflexivity || lia).
    + destruct (Z.compare_spec (int_exp p) e); (reflexivity || lia).
Qed.

Lemma loop_never_exits (num : float) :
  (of_integer (2 ^ 53) <=? num) = true ->
  forall (fuel : nat) (k : Z) (sum : float),
    (1 <= k <= 2 ^ 53)%Z ->
    sum_to_n_b_loop fuel num (of_integer k) sum = None.
Proof.
  intros Hnum fuel. induction fuel as [| fuel IH]; intros k sum Hk;
    cbn [sum_to_n_b_loop]; [reflexivity|].
  rewrite (leb_below_2_53 k num Hk Hnum).
  destruct (Z.eq_dec k (2 ^ 53)) as [-> | Hne].
  - rewrite stuck_at_2_53. apply IH. lia.
  - rewrite counter_step by lia. apply IH. lia.
Qed.

(** X19: for every [num >= 2^53], [Infinity] included, the loop of
    [sum_to_n_b] never ends: the counter stops growing at [2^53], where
    [i + 1] is [i], and the test [i <= num] stays true. No number of
    iterations yields a result. *)
Theorem sum_to_n_b_never_returns (num : float) (fuel : nat) :
  (of_integer (2 ^ 53) <=? num) = true -> sum_to_n_b fuel num = None.
Proof.
  intros Hnum. unfold sum_to_n_b. change 1 with (of_integer 1).
  apply loop_never_exits; [exact Hnum | lia].
Qed.

Lemma sum_to_n_b_never_returns_witness :
  sum_to_n_b 1000 infinity = None.
Proof.
  apply (sum_to_n_b_never_returns infinity 1000). reflexivity.
Defined.


Lemma neg_succ (a : positive) :
  (2 <= Zpos a < 2 ^ 53)%Z ->
  of_integer (Zneg a) + 1 = of_integer (Zneg a + 1).
Proof.
  intros Ha. apply Prim2SF_inj.
  assert (Ha' : (Zpos a < 2 ^ 53)%Z) by lia.
  destruct (Zneg a + 1)%Z as [| q | q] eqn:Hq; try lia.
  assert (Hq' : (Zpos q < 2 ^ 53)%Z) by lia.
  rewrite add_spec, (of_integer_neg_spec a Ha'), (of_integer_neg_spec q Hq').
  rewrite Prim2SF_one.
  cbn [SF64add SFadd cond_Zopp].
  pose proof (int_exp_small a Ha') as Hea.
  pose proof (int_exp_lower a) as Hla.
  set (ez := Z.min (int_exp a) (-52)).
  destruct (shl_align_le (int_man a) (int_exp a) ez ltac:(subst ez; lia)) as [_ Hpa].
  destruct (shl_align_le 4503599627370496 (-52) ez ltac:(subst ez; lia)) as [_ Hp1].
  set (pa := fst (shl_align (int_man a) (int_exp a) ez)) in *.
  set (p1 := fst (shl_align 4503599627370496 (-52) ez)) in *.
  rewrite (int_man_small a Ha') in Hpa.
  assert (Hez : (ez <= 0)%Z) by (subst ez; lia).
  assert (Epa : Zpos pa = (Zpos a * 2 ^ (- ez))%Z).
  { rewrite Hpa, <- Z.mul_assoc, <- Z.pow_add_r by lia. do 2 f_equal. lia. }
  assert (Ep1 : Zpos p1 = (2 ^ (- ez))%Z).
  { rewrite Hp1. change (Zpos 4503599627370496) with (2 ^ 52)%Z.
    rewrite <- Z.pow_add_r by lia. f_equal. lia. }
  assert (Hpow : (0 < 2 ^ (- ez))%Z) by (apply Z.pow_pos_nonneg; lia).
  destruct (- Zpos pa + Zpos p1)%Z as [| P | P] eqn:HP; try nia.
  cbn [binary_normalize].
  apply binary_round_int.
  - now apply representable_small.
  - apply (int_exp_le_971 q 53); lia.
  - exact Hez.
  - nia.
Qed.

Lemma mul_int_neg (a b : positive) :
  (Zpos a < 2 ^ 53)%Z -> (Zpos b < 2 ^ 53)%Z ->
  (Zpos (a * b) < 2 ^ 53)%Z ->
  of_integer (Zneg a) * of_integer (Zneg b) = of_integer (Zpos (a * b)).
Proof.
  intros Ha Hb Hab. apply Prim2SF_inj.
  rewrite mul_spec, (of_integer_neg_spec a Ha), (of_integer_neg_spec b Hb).
  rewrite (of_integer_small (a * b) Hab).
  cbn [SF64mul SFmul xorb].
  pose proof (int_exp_small a Ha) as Hea. pose proof (int_exp_small b Hb) as Heb.
  pose proof (digits_mul_lower a b) as Hd.
  apply round_int.
  - now apply representable_small.
  - apply (int_exp_le_971 (a * b) 53); lia.
  - unfold int_exp, prec in *. lia.
  - lia.
  - rewrite !Pos2Z.inj_mul, (int_man_small a Ha), (int_man_small b Hb).
    replace (- (int_exp a + int_exp b))%Z with (- int_exp a + - int_exp b)%Z by lia.
    rewrite Z.pow_add_r by lia. ring.
Qed.

Lemma one_not_leb_neg (a : positive) :
  (Zpos a < 2 ^ 53)%Z -> (1 <=? of_integer (Zneg a)) = false.
Proof.
  intros Ha. now rewrite leb_spec, Prim2SF_one, (of_integer_neg_spec a Ha).
Qed.

(** X18: on a negative integer the three functions disagree: for every
    integer [n] with [-2^26 <= n <= -2], [sum_to_n_a] throws a RangeError,
    [sum_to_n_b] returns 0 (its loop body never runs) and [sum_to_n_c]
    returns [n * (n + 1) / 2], which is above 0. *)
Theorem sum_to_n_negative (n : Z) (fuel : nat) :
  (- 2 ^ 26 <= n <= -2)%Z -> (0 < fuel)%nat ->
  sum_to_n_a (of_integer n) = None
  /\ sum_to_n_b fuel (of_integer n) = Some 0
  /\ sum_to_n_c (of_integer n) = of_integer (tri n)
  /\ to_integer (of_integer (tri n)) = Some (tri n)
  /\ (0 < tri n)%Z.
Proof.
  intros Hn Hf.
  assert (H26 : (2 ^ 26 < 2 ^ 53)%Z) by reflexivity.
  change (2 ^ 26)%Z with 67108864%Z in Hn.
  change (2 ^ 53)%Z with 9007199254740992%Z in H26.
  pose proof (tri_double n) as Hd.
  assert (Hpos : (0 < tri n)%Z) by nia.
  assert (Hsmall : (tri n < 2 ^ 53)%Z).
  { change (2 ^ 53)%Z with 9007199254740992%Z. nia. }
  assert (Hprod : (2 * tri n < 9007199254740992)%Z) by nia.
  split.
  { apply array_length_refused;
      change (2 ^ 53)%Z with 9007199254740992%Z; lia. }
  destruct n as [| a | a]; try lia.
  split.
  { destruct fuel as [| fuel]; [lia|]. unfold sum_to_n_b.
    cbn [sum_to_n_b_loop]. rewrite one_not_leb_neg; [reflexivity|].
    change (2 ^ 53)%Z with 9007199254740992%Z. lia. }
  split; [| split; [| exact Hpos]].
  - unfold sum_to_n_c.
    rewrite neg_succ by (change (2 ^ 53)%Z with 9007199254740992%Z; lia).
    destruct (Zneg a + 1)%Z as [| b | b] eqn:Hb; try lia.
    destruct (tri (Zneg a)) as [| t | t] eqn:Ht; try lia.
    assert (Hab : (a * b)%positive = xO t) by lia.
    rewrite mul_int_neg; rewrite ?Hab;
      try (change (2 ^ 53)%Z with 9007199254740992%Z in *; lia).
    apply div2_int.
    + change (2 ^ 53)%Z with 9007199254740992%Z in *.
      change (2 ^ 64)%Z with 18446744073709551616%Z. lia.
    + apply representable_small.
      change (2 ^ 53)%Z with 9007199254740992%Z in *. lia.
  - apply to_integer_of_integer. lia.
Qed.

Lemma sum_to_n_negative_witness :
  sum_to_n_a (-3) = None
  /\ sum_to_n_b 1 (-3) = Some 0
  /\ sum_to_n_c (-3) = 3
  /\ to_integer 3 = Some 3%Z
  /\ (0 < tri (-3))%Z.
Proof.
  apply (sum_to_n_negative (-3) 1).
  - split; discriminate.
  - apply Nat.ltb_lt. reflexivity.
Defined.

End SumToNMore.
